(** * cxxlayout: record layout trees and their JSON rendering

    A shallow embedding of [CxxLayout.h] / [CxxLayout.cpp].

    - Text is [string] (a sequence of 8-bit characters).
    - [uint64_t] values are [Z] with the wrap-around written out ([wrap64]);
      [int64_t] and [clang::CharUnits] quantities are [Z].
    - The clang front-end (declarations, [ASTContext], [ASTRecordLayout]) is
      the input of the analysis: declarations are a finite tree, the numbers
      the front-end computes are functions carried by [ASTContext].
    - [llvm::sort] is any function meeting the contract of [std::sort]
      ([SortContract]); [insertion_sort_fn] is one executable instance.
    - The process-wide [LayoutContext] is threaded explicitly through the
      exported entry points.
    - Storage exhaustion is outside the model: a returned buffer is identified
      with the text [dupJson] copies into it. *)

From Stdlib Require Import ZArith List String Ascii Bool Lia.
From Stdlib Require Import Sorted Permutation.
From Stdlib Require Import Decimal DecimalString DecimalPos DecimalN.
Import ListNotations.

Set Warnings "-register-all".

Local Open Scope string_scope.
Local Open Scope Z_scope.

(** ** Characters and literals used by the serializer *)

(** The double-quote character, byte 34. *)
Definition DQ : string := String "034"%char EmptyString.
(** The backslash character, byte 92. *)
Definition BSL : string := String "092"%char EmptyString.

(** [uint64_t] conversion. *)
Definition wrap64 (z : Z) : Z := z mod 2 ^ 64.

(** [raw_ostream << unsigned long long]: decimal digits of a value that is
    already a [uint64_t]. *)
Definition printUnsigned (z : Z) : string :=
  NilZero.string_of_uint (N.to_uint (Z.to_N z)).

(** [raw_ostream << long long] (a [CharUnits] quantity). *)
Definition printSigned (z : Z) : string :=
  NilZero.string_of_int (Z.to_int z).

(** [llvm::utostr(uint64_t X)]: the argument is converted to [uint64_t]. *)
Definition utostr (X : Z) : string := printUnsigned (wrap64 X).

(** ** writeEscaped (CxxLayout.cpp, lines 40-74) *)

(** [static const char Hex[] = "0123456789ABCDEF"]. *)
Definition Hex : string := "0123456789ABCDEF".

Definition HexAt (i : Z) : string :=
  match String.get (Z.to_nat i) Hex with
  | Some c => String c EmptyString
  | None => EmptyString
  end.

(** The body of the [switch] for one byte [C]. *)
Definition writeEscapedChar (c : ascii) : string :=
  let C := Z.of_N (N_of_ascii c) in
  match C with
  | 34 => BSL ++ DQ          (* case double quote *)
  | 92 => BSL ++ BSL         (* case backslash *)
  | 8 => BSL ++ "b"          (* case backspace *)
  | 12 => BSL ++ "f"         (* case form feed *)
  | 10 => BSL ++ "n"         (* case newline *)
  | 13 => BSL ++ "r"         (* case carriage return *)
  | 9 => BSL ++ "t"          (* case tab *)
  | _ =>
      if C <? 32 then
        BSL ++ "u00" ++ HexAt (Z.land (Z.shiftr C 4) 15) ++ HexAt (Z.land C 15)
      else String c EmptyString
  end.

(** The loop over [S]; the result is the text appended to the stream. *)
Fixpoint writeEscaped (S : string) : string :=
  match S with
  | EmptyString => EmptyString
  | String c S' => writeEscapedChar c ++ writeEscaped S'
  end.

(** ** FieldInfo (CxxLayout.h) *)

Inductive FieldType : Set :=
| Simple
| Record_
| BitField
| NVBase
| VBase
| VPtr.

Definition FieldType_eqb (a b : FieldType) : bool :=
  match a, b with
  | Simple, Simple | Record_, Record_ | BitField, BitField
  | NVBase, NVBase | VBase, VBase | VPtr, VPtr => true
  | _, _ => false
  end.

Definition fieldTypeToString (ft : FieldType) : string :=
  match ft with
  | Record_ => "Record"
  | VPtr => "VPtr"
  | NVBase => "NVBase"
  | BitField => "BitField"
  | Simple => "Simple"
  | _ => "Unknown"
  end.

Inductive FieldInfo : Type := mkFieldInfo {
  isValid : bool;
  fieldType : FieldType;
  name : string;
  type : string;
  offset : Z;            (* uint64_t, in bits *)
  size : Z;              (* clang::CharUnits *)
  align : Z;             (* clang::CharUnits *)
  bitWidth : Z;          (* uint64_t *)
  subFields : list FieldInfo
}.

(** [std::make_unique<FieldInfo>()] value-initializes the object: the class
    has no user-provided constructor, so every scalar member is zero. *)
Definition newFieldInfo : FieldInfo :=
  mkFieldInfo false Simple EmptyString EmptyString 0 0 0 0 [].

(** Assignments to one member.  [offset] and [bitWidth] are [uint64_t]:
    the value assigned is converted. *)
Definition set_isValid (v : bool) (F : FieldInfo) : FieldInfo :=
  mkFieldInfo v (fieldType F) (name F) (type F) (offset F) (size F) (align F)
              (bitWidth F) (subFields F).
Definition set_fieldType (v : FieldType) (F : FieldInfo) : FieldInfo :=
  mkFieldInfo (isValid F) v (name F) (type F) (offset F) (size F) (align F)
              (bitWidth F) (subFields F).
Definition set_name (v : string) (F : FieldInfo) : FieldInfo :=
  mkFieldInfo (isValid F) (fieldType F) v (type F) (offset F) (size F) (align F)
              (bitWidth F) (subFields F).
Definition set_type (v : string) (F : FieldInfo) : FieldInfo :=
  mkFieldInfo (isValid F) (fieldType F) (name F) v (offset F) (size F) (align F)
              (bitWidth F) (subFields F).
Definition set_offset (v : Z) (F : FieldInfo) : FieldInfo :=
  mkFieldInfo (isValid F) (fieldType F) (name F) (type F) (wrap64 v) (size F)
              (align F) (bitWidth F) (subFields F).
Definition set_size (v : Z) (F : FieldInfo) : FieldInfo :=
  mkFieldInfo (isValid F) (fieldType F) (name F) (type F) (offset F) v (align F)
              (bitWidth F) (subFields F).
Definition set_align (v : Z) (F : FieldInfo) : FieldInfo :=
  mkFieldInfo (isValid F) (fieldType F) (name F) (type F) (offset F) (size F) v
              (bitWidth F) (subFields F).
Definition set_bitWidth (v : Z) (F : FieldInfo) : FieldInfo :=
  mkFieldInfo (isValid F) (fieldType F) (name F) (type F) (offset F) (size F)
              (align F) (wrap64 v) (subFields F).
(** [F.subFields.push_back(std::move(C))]. *)
Definition push_back (C : FieldInfo) (F : FieldInfo) : FieldInfo :=
  mkFieldInfo (isValid F) (fieldType F) (name F) (type F) (offset F) (size F)
              (align F) (bitWidth F) (subFields F ++ [C]).
(** [F.subFields.insert(F.subFields.end(), first, last)]. *)
Definition insert_end (Cs : list FieldInfo) (F : FieldInfo) : FieldInfo :=
  mkFieldInfo (isValid F) (fieldType F) (name F) (type F) (offset F) (size F)
              (align F) (bitWidth F) (subFields F ++ Cs).

(** ** The declarations handed over by the front-end *)

(** A field's type: its spelling and, when the type is a class type,
    the class ([getAsCXXRecordDecl()], null otherwise). *)
Record QualType (R : Type) : Type := mkQualType {
  getAsString : string;
  getAsCXXRecordDecl : option R
}.
Arguments mkQualType {R}.
Arguments getAsString {R}.
Arguments getAsCXXRecordDecl {R}.

Record FieldDecl (R : Type) : Type := mkFieldDecl {
  getNameAsString : string;
  fieldIsInvalidDecl : bool;
  getType : QualType R;
  isBitField : bool;
  getBitWidthValue : Z
}.
Arguments mkFieldDecl {R}.
Arguments getNameAsString {R}.
Arguments fieldIsInvalidDecl {R}.
Arguments getType {R}.
Arguments isBitField {R}.
Arguments getBitWidthValue {R}.

(** One entry of [RD->bases()]; [baseDecl] is
    [Base.getType()->getAsCXXRecordDecl()]. *)
Record CXXBaseSpecifier (R : Type) : Type := mkCXXBaseSpecifier {
  isVirtual : bool;
  baseDecl : R
}.
Arguments mkCXXBaseSpecifier {R}.
Arguments isVirtual {R}.
Arguments baseDecl {R}.

Inductive CXXRecordDecl : Type :=
| mkCXXRecordDecl
    (getID : Z)
    (isCompleteDefinition : bool)
    (isInvalidDecl : bool)
    (getQualifiedNameAsString : string)
    (bases : list (CXXBaseSpecifier CXXRecordDecl))
    (fields : list (FieldDecl CXXRecordDecl)).

Definition getID (RD : CXXRecordDecl) : Z :=
  match RD with mkCXXRecordDecl i _ _ _ _ _ => i end.
Definition isCompleteDefinition (RD : CXXRecordDecl) : bool :=
  match RD with mkCXXRecordDecl _ c _ _ _ _ => c end.
Definition isInvalidDecl (RD : CXXRecordDecl) : bool :=
  match RD with mkCXXRecordDecl _ _ v _ _ _ => v end.
Definition getQualifiedNameAsString (RD : CXXRecordDecl) : string :=
  match RD with mkCXXRecordDecl _ _ _ q _ _ => q end.
Definition bases (RD : CXXRecordDecl) : list (CXXBaseSpecifier CXXRecordDecl) :=
  match RD with mkCXXRecordDecl _ _ _ _ b _ => b end.
Definition fields (RD : CXXRecordDecl) : list (FieldDecl CXXRecordDecl) :=
  match RD with mkCXXRecordDecl _ _ _ _ _ f => f end.

(** [clang::ASTRecordLayout]: the numbers the front-end computed for one
    record.  Base offsets are [CharUnits], field offsets are bits. *)
Record ASTRecordLayout : Type := mkASTRecordLayout {
  getSize : Z;
  getAlignment : Z;
  hasOwnVFPtr : bool;
  getBaseClassOffset : CXXRecordDecl -> Z;
  getFieldOffset : Z -> Z
}.

(** [clang::ASTContext] with the target description it carries.  Widths and
    alignments of [TargetInfo] are in bits. *)
Record ASTContext : Type := mkASTContext {
  getASTRecordLayout : CXXRecordDecl -> ASTRecordLayout;
  getPointerWidth : Z;
  getPointerAlign : Z;
  getCharWidth : Z;
  getTypeSizeInChars : QualType CXXRecordDecl -> Z;
  getTypeAlignInChars : QualType CXXRecordDecl -> Z
}.

(** [ASTContext::toCharUnitsFromBits]: [BitSize / getCharWidth()]. *)
Definition toCharUnitsFromBits (Ctx : ASTContext) (BitSize : Z) : Z :=
  Z.quot BitSize (getCharWidth Ctx).

(** ** llvm::sort *)

(** The comparator requirements of [std::sort]. *)
Record StrictWeakOrder {A : Type} (lt : A -> A -> bool) : Prop := {
  swo_irrefl : forall a, lt a a = false;
  swo_trans : forall a b c, lt a b = true -> lt b c = true -> lt a c = true;
  swo_incomp : forall a b c,
      lt a b = false -> lt b a = false ->
      lt b c = false -> lt c b = false ->
      lt a c = false /\ lt c a = false
}.

(** [llvm::sort(Range, Comp)] rearranges the range so that no element
    compares less than an earlier one.  Which of two equivalent elements
    comes first is not specified, so the analysis is stated for any function
    of this type that meets [SortContract]. *)
Definition SortFn : Type :=
  forall A : Type, (A -> A -> bool) -> list A -> list A.

Record SortContract (sort : SortFn) : Prop := {
  sort_perm : forall A (lt : A -> A -> bool) l, Permutation l (sort A lt l);
  sort_sorted : forall A (lt : A -> A -> bool) l,
      StrictWeakOrder lt ->
      StronglySorted (fun a b => lt b a = false) (sort A lt l)
}.

(** One executable sort: stable insertion sort. *)
Section InsertionSort.
Context {A : Type} (lt : A -> A -> bool).

Fixpoint insert_sorted (x : A) (l : list A) : list A :=
  match l with
  | [] => [x]
  | y :: l' => if lt y x then y :: insert_sorted x l' else x :: l
  end.

Fixpoint insertion_sort (l : list A) : list A :=
  match l with
  | [] => []
  | x :: l' => insert_sorted x (insertion_sort l')
  end.
End InsertionSort.

Definition insertion_sort_fn : SortFn := fun A lt l => insertion_sort lt l.

(** ** analyzeRecord (CxxLayout.cpp, lines 102-186) *)

Section AnalyzeLoops.
Variable analyze : CXXRecordDecl -> FieldInfo.
Variable Ctx : ASTContext.
Variable Layout : ASTRecordLayout.

(** [for (const auto &Base : RD->bases())], lines 131-140.  The state is
    [Info] (only [isValid] changes) and the vector [Bases]. *)
Fixpoint basesLoop (bs : list (CXXBaseSpecifier CXXRecordDecl))
         (Info : FieldInfo) (Bases : list FieldInfo)
  : FieldInfo * list FieldInfo :=
  match bs with
  | [] => (Info, Bases)
  | Base :: bs' =>
      let BaseDecl := baseDecl Base in
      if isVirtual Base then basesLoop bs' Info Bases
      else
        let BaseInfo := analyze BaseDecl in
        let BaseInfo := set_fieldType NVBase BaseInfo in
        let BaseInfo :=
          set_offset (getBaseClassOffset Layout BaseDecl * 8) BaseInfo in
        let Info := set_isValid (isValid Info && isValid BaseInfo) Info in
        basesLoop bs' Info (Bases ++ [BaseInfo])
  end.

(** [for (const auto *Field : RD->fields())], lines 150-181.  The counter
    [fieldIndex] stays below the number of fields and cannot wrap. *)
Fixpoint fieldsLoop (fs : list (FieldDecl CXXRecordDecl))
         (fieldIndex : Z) (Info : FieldInfo) : FieldInfo :=
  match fs with
  | [] => Info
  | Field :: fs' =>
      let Offset := getFieldOffset Layout fieldIndex in
      let Info :=
        match getAsCXXRecordDecl (getType Field) with
        | Some FieldRecord =>
            let SubFieldInfo := analyze FieldRecord in
            let SubFieldInfo :=
              set_name (getNameAsString Field) SubFieldInfo in
            let SubFieldInfo := set_offset Offset SubFieldInfo in
            let Info :=
              set_isValid (isValid Info && isValid SubFieldInfo) Info in
            push_back SubFieldInfo Info
        | None =>
            let SubFieldInfo := newFieldInfo in
            let SubFieldInfo :=
              set_isValid (negb (fieldIsInvalidDecl Field)) SubFieldInfo in
            let Info :=
              set_isValid (isValid Info && isValid SubFieldInfo) Info in
            let SubFieldInfo :=
              set_name (getNameAsString Field) SubFieldInfo in
            let SubFieldInfo :=
              set_type (getAsString (getType Field)) SubFieldInfo in
            let SubFieldInfo := set_offset Offset SubFieldInfo in
            let SubFieldInfo :=
              set_size (getTypeSizeInChars Ctx (getType Field))
                       SubFieldInfo in
            let SubFieldInfo :=
              set_align (getTypeAlignInChars Ctx (getType Field))
                        SubFieldInfo in
            if isBitField Field then
              let SubFieldInfo := set_fieldType BitField SubFieldInfo in
              let SubFieldInfo :=
                set_bitWidth (getBitWidthValue Field) SubFieldInfo in
              push_back SubFieldInfo Info
            else
              let SubFieldInfo := set_fieldType Simple SubFieldInfo in
              push_back SubFieldInfo Info
        end in
      fieldsLoop fs' (fieldIndex + 1) Info
  end.
End AnalyzeLoops.

(** The comparator handed to [llvm::sort], line 141. *)
Definition offsetLess (A B : FieldInfo) : bool := offset A <? offset B.

(** The [VPtrInfo] node of lines 117-125. *)
Definition makeVPtrInfo (Ctx : ASTContext) : FieldInfo :=
  let VPtrInfo := newFieldInfo in
  let VPtrInfo := set_isValid true VPtrInfo in
  let VPtrInfo := set_fieldType VPtr VPtrInfo in
  let VPtrInfo := set_type "vptr" VPtrInfo in
  let VPtrInfo := set_offset 0 VPtrInfo in
  let VPtrInfo :=
    set_size (toCharUnitsFromBits Ctx (getPointerWidth Ctx)) VPtrInfo in
  let VPtrInfo :=
    set_align (toCharUnitsFromBits Ctx (getPointerAlign Ctx)) VPtrInfo in
  VPtrInfo.

(** The recursion follows the declaration tree: a base or a member of class
    type is a complete class, declared before the class that uses it.  The
    assertion on the C++ ABI at function entry does not contribute to the
    result and is not represented. *)
Fixpoint analyzeRecord (llvm_sort : SortFn) (Ctx : ASTContext) (RD : CXXRecordDecl)
         {struct RD} : FieldInfo :=
  match RD with
  | mkCXXRecordDecl _ _ invalid qname bs fs =>
      let Info := newFieldInfo in
      let Layout := getASTRecordLayout Ctx RD in
      let Info := set_isValid (negb invalid) Info in
      let Info := set_fieldType Record_ Info in
      let Info := set_type qname Info in
      let Info := set_size (getSize Layout) Info in
      let Info := set_align (getAlignment Layout) Info in
      (* First the vptr if any *)
      let Info :=
        if hasOwnVFPtr Layout then push_back (makeVPtrInfo Ctx) Info
        else Info in
      (* Then the non-virtual bases *)
      let '(Info, Bases) :=
        basesLoop (analyzeRecord llvm_sort Ctx) Layout bs Info [] in
      let Bases := llvm_sort _ offsetLess Bases in
      let Info := insert_end Bases Info in
      (* Now the fields *)
      fieldsLoop (analyzeRecord llvm_sort Ctx) Ctx Layout fs 0 Info
  end.


(** ** The layout tree as a set of nodes *)

(** Every node of the tree rooted at [F], the root first. *)
Fixpoint nodes (F : FieldInfo) : list FieldInfo :=
  match F with
  | mkFieldInfo _ _ _ _ _ _ _ _ subs => F :: flat_map nodes subs
  end.

(** The AND of [isValid] over every node of the tree rooted at [F]. *)
Fixpoint subtreeValid (F : FieldInfo) : bool :=
  match F with
  | mkFieldInfo v _ _ _ _ _ _ _ subs => v && forallb subtreeValid subs
  end.

Definition isNVBase (F : FieldInfo) : bool := FieldType_eqb (fieldType F) NVBase.
Definition isVPtr (F : FieldInfo) : bool := FieldType_eqb (fieldType F) VPtr.

(** ** Session state (CxxLayout.cpp, lines 27-38) *)

Definition DEFAULT_ARGS : string := "--target=x86_64-pc-linux-gnu".

(** [std::map<int64_t, FieldInfoPtr>] is represented by its in-order
    sequence of entries; [StdMap.assign] keeps the keys strictly ascending. *)
Module StdMap.
Definition t : Type := list (Z * FieldInfo).

Definition empty : t := [].

(** [m.find(k)], [None] standing for [m.end()]. *)
Fixpoint find (k : Z) (m : t) : option FieldInfo :=
  match m with
  | [] => None
  | (k', v) :: m' => if k =? k' then Some v else find k m'
  end.

(** [m[k] = v]. *)
Fixpoint assign (k : Z) (v : FieldInfo) (m : t) : t :=
  match m with
  | [] => [(k, v)]
  | (k', v') :: m' =>
      if k <? k' then (k, v) :: m
      else if k =? k' then (k, v) :: m'
      else (k', v') :: assign k v m'
  end.

Definition keys (m : t) : list Z := map fst m.

(** The representation invariant of the ordered map. *)
Definition ordered (m : t) : Prop := StronglySorted Z.lt (keys m).
End StdMap.

Record LayoutContext : Type := mkLayoutContext {
  args : string;
  recordList : string;
  records : StdMap.t
}.

(** The function-local static [C] of [getContext()] before the first call. *)
Definition initialContext : LayoutContext :=
  mkLayoutContext DEFAULT_ARGS EmptyString StdMap.empty.

Definition emptyb (s : string) : bool :=
  match s with EmptyString => true | _ => false end.

(** ** splitArgs (lines 76-92) and dupJson (lines 94-100) *)

Fixpoint splitArgs_loop (Args : string) (Current : string)
         (Result : list string) : string * list string :=
  match Args with
  | EmptyString => (Current, Result)
  | String C Args' =>
      if Ascii.eqb C " "%char then
        if negb (emptyb Current)
        then splitArgs_loop Args' EmptyString (Result ++ [Current])
        else splitArgs_loop Args' Current Result
      else splitArgs_loop Args' (Current ++ String C EmptyString) Result
  end.

Definition splitArgs (Args : string) : list string :=
  let '(Current, Result) := splitArgs_loop Args EmptyString [] in
  if negb (emptyb Current) then Result ++ [Current] else Result.

(** The text of the buffer handed to the caller. *)
Definition dupJson (S : string) : string := S.

(** ** The visitor (lines 188-226) *)

(** What the front-end hands to [Consumer::HandleTranslationUnit]: the
    context and the class declarations [RecursiveASTVisitor] reaches, in
    traversal order.  [None] is a null pointer. *)
Record TranslationUnit : Type := mkTranslationUnit {
  tuContext : ASTContext;
  tuRecordDecls : list (option CXXRecordDecl)
}.

(** [runToolOnCodeWithArgs]: source text and argument vector to the
    translation unit the action receives, if it receives one. *)
Definition FrontEnd : Type := string -> list string -> option TranslationUnit.

Section Session.
Variable llvm_sort : SortFn.
Variable runToolOnCodeWithArgs : FrontEnd.

Definition VisitCXXRecordDecl (Ctx : ASTContext) (RD : option CXXRecordDecl)
           (LCtx : LayoutContext) : LayoutContext :=
  match RD with
  | None => LCtx
  | Some RD =>
      if negb (isCompleteDefinition RD) then LCtx
      else
        let Id := getID RD in
        match StdMap.find Id (records LCtx) with
        | Some _ => LCtx
        | None =>
            let Info := analyzeRecord llvm_sort Ctx RD in
            mkLayoutContext (args LCtx) (recordList LCtx)
                            (StdMap.assign Id Info (records LCtx))
        end
  end.

Definition HandleTranslationUnit (TU : TranslationUnit)
           (LCtx : LayoutContext) : LayoutContext :=
  fold_left (fun L RD => VisitCXXRecordDecl (tuContext TU) RD L)
            (tuRecordDecls TU) LCtx.

(** ** The exported entry points (lines 230-342) *)

Definition cleanup (Ctx : LayoutContext) : LayoutContext :=
  let Ctx := mkLayoutContext (args Ctx) EmptyString (records Ctx) in
  mkLayoutContext (args Ctx) (recordList Ctx) StdMap.empty.

(** [for (const auto &R : Ctx.records)], lines 244-261. *)
Fixpoint getRecordList_loop (rs : list (Z * FieldInfo)) (first : bool)
         (RecordList : string) : string :=
  match rs with
  | [] => RecordList
  | R :: rs' =>
      let RecordList :=
        if negb first then RecordList ++ "," else RecordList in
      let RecordList := RecordList ++ ("{" ++ DQ ++ "id" ++ DQ ++ ":" ++ DQ) in
      let RecordList := RecordList ++ utostr (fst R) in
      let RecordList :=
        RecordList ++ (DQ ++ "," ++ DQ ++ "name" ++ DQ ++ ":" ++ DQ) in
      let Escaped := writeEscaped (type (snd R)) in
      let RecordList := RecordList ++ Escaped in
      let RecordList := RecordList ++ (DQ ++ "}") in
      getRecordList_loop rs' false RecordList
  end.

Definition getRecordList (Ctx : LayoutContext) : string * LayoutContext :=
  let RecordList := EmptyString in
  let RecordList := RecordList ++ "[" in
  let RecordList := getRecordList_loop (records Ctx) true RecordList in
  let RecordList := RecordList ++ "]" in
  (dupJson RecordList, mkLayoutContext (args Ctx) RecordList (records Ctx)).

Definition analyzeSource (source : string) (Ctx : LayoutContext)
  : LayoutContext :=
  let Ctx := mkLayoutContext (args Ctx) EmptyString (records Ctx) in
  let Ctx := mkLayoutContext (args Ctx) (recordList Ctx) StdMap.empty in
  let localArgs := args Ctx in
  match runToolOnCodeWithArgs source (splitArgs localArgs) with
  | Some TU => HandleTranslationUnit TU Ctx
  | None => Ctx
  end.

(** [unsigned] arithmetic for the unused [Depth] argument. *)
Definition wrap32 (z : Z) : Z := z mod 2 ^ 32.

(** [for (const auto &SFptr : F.subFields)], lines 318-325.  Every
    element of [subFields] was pushed by [analyzeRecord] and is non-null,
    so the null test of line 319 never skips one. *)
Section SubFieldsLoop.
Variable writeField : FieldInfo -> Z -> string.
Variable Depth : Z.

Fixpoint subFieldsLoop (l : list FieldInfo) (first : bool) : string :=
  match l with
  | [] => EmptyString
  | SF :: l' =>
      (if negb first then "," else EmptyString)
      ++ writeField SF (wrap32 (Depth + 4))
      ++ subFieldsLoop l' false
  end.
End SubFieldsLoop.

(** The lambda [writeField], lines 289-329; the result is the text sent
    to [Out]. *)
Fixpoint writeField (F : FieldInfo) (Depth : Z) {struct F} : string :=
  match F with
  | mkFieldInfo _ ft nm ty off sz al bw subs =>
      "{"
      ++ (DQ ++ "fieldType" ++ DQ ++ ":" ++ DQ) ++ fieldTypeToString ft ++ DQ
      ++ (if negb (emptyb nm)
          then "," ++ (DQ ++ "name" ++ DQ ++ ":" ++ DQ)
                   ++ writeEscaped nm ++ DQ
          else EmptyString)
      ++ ","
      ++ (DQ ++ "type" ++ DQ ++ ":" ++ DQ) ++ writeEscaped ty ++ DQ
      ++ ","
      ++ (DQ ++ "size" ++ DQ ++ ":") ++ printSigned sz
      ++ ","
      ++ (DQ ++ "align" ++ DQ ++ ":") ++ printSigned al
      ++ ","
      ++ (DQ ++ "offset" ++ DQ ++ ":") ++ printUnsigned (Z.shiftr off 3)
      ++ (if FieldType_eqb ft BitField
          then "," ++ (DQ ++ "bitWidth" ++ DQ ++ ":") ++ printUnsigned bw
          else EmptyString)
      ++ (if FieldType_eqb ft Record_ || FieldType_eqb ft NVBase
          then "," ++ (DQ ++ "subFields" ++ DQ ++ ": [")
               ++ subFieldsLoop writeField Depth subs true
               ++ "]"
          else EmptyString)
      ++ "}"
  end.

Definition getLayoutForRecord (id : Z) (Ctx : LayoutContext)
  : string * LayoutContext :=
  match StdMap.find id (records Ctx) with
  | None => (dupJson "{}", Ctx)
  | Some Root =>
      let Json := writeField Root 0 in
      (dupJson Json, Ctx)
  end.

(** [newArgs] is [None] for a null pointer. *)
Definition setArgs (newArgs : option string) (Ctx : LayoutContext)
  : LayoutContext :=
  match newArgs with
  | Some s =>
      if negb (emptyb s)
      then mkLayoutContext s (recordList Ctx) (records Ctx)
      else mkLayoutContext DEFAULT_ARGS (recordList Ctx) (records Ctx)
  | None => mkLayoutContext DEFAULT_ARGS (recordList Ctx) (records Ctx)
  end.

(** ** Call sequences of a host *)

Inductive Call : Type :=
| CallCleanup
| CallGetRecordList
| CallAnalyzeSource (source : string)
| CallGetLayoutForRecord (id : Z)
| CallSetArgs (newArgs : option string).

(** One call: the text returned, if the entry point returns one, and the
    state it leaves. *)
Definition call (c : Call) (Ctx : LayoutContext)
  : option string * LayoutContext :=
  match c with
  | CallCleanup => (None, cleanup Ctx)
  | CallGetRecordList =>
      let '(r, Ctx') := getRecordList Ctx in (Some r, Ctx')
  | CallAnalyzeSource source => (None, analyzeSource source Ctx)
  | CallGetLayoutForRecord id =>
      let '(r, Ctx') := getLayoutForRecord id Ctx in (Some r, Ctx')
  | CallSetArgs newArgs => (None, setArgs newArgs Ctx)
  end.

Definition run (cs : list Call) (Ctx : LayoutContext) : LayoutContext :=
  fold_left (fun C c => snd (call c C)) cs Ctx.

Definition isAnalyze (c : Call) : bool :=
  match c with CallAnalyzeSource _ => true | _ => false end.

(** The states a host can bring the session to. *)
Definition Reachable (Ctx : LayoutContext) : Prop :=
  exists cs, Ctx = run cs initialContext.
End Session.

(** ** Sample declarations

    [struct A { int x; char y; }; struct B : A { double z; };]
    [struct C { unsigned a : 3; unsigned b : 5; };]
    [struct E1 {}; struct E2 {}; struct D : E2, E1 { int v; };]
    [struct V { virtual void f(); };  struct W : V { long w; };]
    with the numbers clang computes for them. *)
Module Samples.
Definition nonRecord (spelling : string) : QualType CXXRecordDecl :=
  mkQualType spelling None.
Definition plainField (n ty : string) : FieldDecl CXXRecordDecl :=
  mkFieldDecl n false (nonRecord ty) false 0.
Definition bitField (n ty : string) (w : Z) : FieldDecl CXXRecordDecl :=
  mkFieldDecl n false (nonRecord ty) true w.
Definition nvBase (RD : CXXRecordDecl) : CXXBaseSpecifier CXXRecordDecl :=
  mkCXXBaseSpecifier false RD.

Definition declA : CXXRecordDecl :=
  mkCXXRecordDecl 1 true false "A" []
                  [plainField "x" "int"; plainField "y" "char"].
Definition declB : CXXRecordDecl :=
  mkCXXRecordDecl 2 true false "B" [nvBase declA] [plainField "z" "double"].
Definition declC : CXXRecordDecl :=
  mkCXXRecordDecl 3 true false "C" []
                  [bitField "a" "unsigned int" 3; bitField "b" "unsigned int" 5].
Definition declE1 : CXXRecordDecl := mkCXXRecordDecl 4 true false "E1" [] [].
Definition declE2 : CXXRecordDecl := mkCXXRecordDecl 5 true false "E2" [] [].
Definition declD : CXXRecordDecl :=
  mkCXXRecordDecl 6 true false "D" [nvBase declE2; nvBase declE1]
                  [plainField "v" "int"].
Definition declV : CXXRecordDecl := mkCXXRecordDecl 7 true false "V" [] [].
Definition declW : CXXRecordDecl :=
  mkCXXRecordDecl 8 true false "W" [nvBase declV] [plainField "w" "long"].
(** [struct P : A2, V { }]: the polymorphic base [V] is the primary base
    and sits at offset 0, in front of [A2], which is listed first.  The
    declaration of [A2] is marked as being in error. *)
Definition declA2 : CXXRecordDecl :=
  mkCXXRecordDecl 9 true true "A2" [] [plainField "q" "int"].
Definition declP : CXXRecordDecl :=
  mkCXXRecordDecl 10 true false "P" [nvBase declA2; nvBase declV] [].
(** A polymorphic class whose declaration is marked as being in error. *)
Definition declX : CXXRecordDecl :=
  mkCXXRecordDecl 11 true true "X" [] [plainField "k" "int"].

Definition noBases (_ : CXXRecordDecl) : Z := 0.

Definition layoutOf (RD : CXXRecordDecl) : ASTRecordLayout :=
  match getID RD with
  | 1 => mkASTRecordLayout 8 4 false noBases
           (fun i => match i with 0 => 0 | _ => 32 end)
  | 2 => mkASTRecordLayout 16 8 false noBases (fun _ => 64)
  | 3 => mkASTRecordLayout 4 4 false noBases
           (fun i => match i with 0 => 0 | _ => 3 end)
  | 6 => mkASTRecordLayout 4 4 false noBases (fun _ => 0)
  | 7 => mkASTRecordLayout 8 8 true noBases (fun _ => 0)
  | 8 => mkASTRecordLayout 16 8 false noBases (fun _ => 64)
  | 9 => mkASTRecordLayout 4 4 false noBases (fun _ => 0)
  | 10 => mkASTRecordLayout 16 8 false
            (fun BD => match getID BD with 9 => 8 | _ => 0 end) (fun _ => 0)
  | 11 => mkASTRecordLayout 16 8 true noBases (fun _ => 64)
  | _ => mkASTRecordLayout 1 1 false noBases (fun _ => 0)
  end.

Definition sizeOfType (T : QualType CXXRecordDecl) : Z :=
  if String.eqb (getAsString T) "char" then 1
  else if String.eqb (getAsString T) "double" then 8
  else if String.eqb (getAsString T) "long" then 8
  else 4.

(** x86_64-pc-linux-gnu. *)
Definition ctx64 : ASTContext :=
  mkASTContext layoutOf 64 64 8 sizeOfType sizeOfType.

(** A target whose pointers are 16 bits wide and aligned to 8 bits
    (avr). *)
Definition ctxAVR : ASTContext :=
  mkASTContext layoutOf 16 8 8 sizeOfType sizeOfType.

Definition frontEnd : FrontEnd :=
  fun source _ =>
    if emptyb source then None
    else Some (mkTranslationUnit
                 ctx64 [Some declA; Some declB; Some declC; Some declA]).

(** The session after one analysis of the sample program. *)
Definition analysed : LayoutContext :=
  run insertion_sort_fn frontEnd
      [CallSetArgs None; CallAnalyzeSource "struct A { int x; char y; };"]
      initialContext.

(** The tree of [C] and the node of its second bit-field. *)
Definition rootC : FieldInfo := analyzeRecord insertion_sort_fn ctx64 declC.
Definition nodeCb : FieldInfo :=
  mkFieldInfo true BitField "b" "unsigned int" 3 4 4 5 [].

(** [struct M { A a; int k; }] where the declaration of the member [a] is
    marked as being in error while the class [A] is not; [struct N] is the
    same record with the mark on the member [k] instead. *)
Definition declM : CXXRecordDecl :=
  mkCXXRecordDecl 12 true false "M" []
                  [mkFieldDecl "a" true (mkQualType "A" (Some declA)) false 0;
                   plainField "k" "int"].
Definition declN : CXXRecordDecl :=
  mkCXXRecordDecl 13 true false "N" []
                  [mkFieldDecl "a" false (mkQualType "A" (Some declA)) false 0;
                   mkFieldDecl "k" true (nonRecord "int") false 0].
Definition layoutOfMN (RD : CXXRecordDecl) : ASTRecordLayout :=
  match getID RD with
  | 12 | 13 => mkASTRecordLayout 12 4 false noBases
                 (fun i => match i with 0 => 0 | _ => 64 end)
  | _ => layoutOf RD
  end.
Definition ctxMN : ASTContext :=
  mkASTContext layoutOfMN 64 64 8 sizeOfType sizeOfType.
End Samples.

(** ** Vocabulary of the statements *)

(** The node the loop of lines 131-140 builds for one non-virtual base. *)
Definition baseNode (analyze : CXXRecordDecl -> FieldInfo)
           (Layout : ASTRecordLayout) (Base : CXXBaseSpecifier CXXRecordDecl)
  : FieldInfo :=
  set_offset (getBaseClassOffset Layout (baseDecl Base) * 8)
             (set_fieldType NVBase (analyze (baseDecl Base))).

(** The base nodes in the order of the inheritance list, virtual bases
    left out. *)
Definition baseNodes (analyze : CXXRecordDecl -> FieldInfo)
           (Layout : ASTRecordLayout)
           (bs : list (CXXBaseSpecifier CXXRecordDecl)) : list FieldInfo :=
  map (baseNode analyze Layout) (filter (fun B => negb (isVirtual B)) bs).

(** The node the loop of lines 150-181 builds for the field of index
    [fieldIndex]. *)
Definition fieldNode (analyze : CXXRecordDecl -> FieldInfo) (Ctx : ASTContext)
           (Layout : ASTRecordLayout) (fieldIndex : Z)
           (Field : FieldDecl CXXRecordDecl) : FieldInfo :=
  match getAsCXXRecordDecl (getType Field) with
  | Some FieldRecord =>
      set_offset (getFieldOffset Layout fieldIndex)
                 (set_name (getNameAsString Field) (analyze FieldRecord))
  | None =>
      mkFieldInfo (negb (fieldIsInvalidDecl Field))
                  (if isBitField Field then BitField else Simple)
                  (getNameAsString Field)
                  (getAsString (getType Field))
                  (wrap64 (getFieldOffset Layout fieldIndex))
                  (getTypeSizeInChars Ctx (getType Field))
                  (getTypeAlignInChars Ctx (getType Field))
                  (if isBitField Field then wrap64 (getBitWidthValue Field)
                   else 0)
                  []
  end.

(** The field nodes in declaration order, the first field having index
    [fieldIndex]. *)
Fixpoint fieldNodes (analyze : CXXRecordDecl -> FieldInfo) (Ctx : ASTContext)
         (Layout : ASTRecordLayout) (fieldIndex : Z)
         (fs : list (FieldDecl CXXRecordDecl)) : list FieldInfo :=
  match fs with
  | [] => []
  | Field :: fs' =>
      fieldNode analyze Ctx Layout fieldIndex Field
      :: fieldNodes analyze Ctx Layout (fieldIndex + 1) fs'
  end.

(** What holds of every node of an analysed tree. *)
Record NodeInvariant (F : FieldInfo) : Prop := {
  inv_offset : 0 <= offset F < 2 ^ 64;
  inv_valid : isValid F = subtreeValid F;
  inv_vptr : fieldType F = VPtr ->
             isValid F = true /\ name F = EmptyString /\ type F = "vptr"
             /\ offset F = 0 /\ subFields F = [];
  inv_kind : fieldType F <> VBase;
  inv_leaf : subFields F <> [] ->
             fieldType F = Record_ \/ fieldType F = NVBase
}.

(** The escaping rule in the words of the specification. *)
Definition hexDigit (d : Z) : ascii :=
  if d <? 10 then ascii_of_N (Z.to_N (48 + d))
  else ascii_of_N (Z.to_N (65 + (d - 10))).

Definition hex4 (n : Z) : string :=
  String (hexDigit ((n / 4096) mod 16))
    (String (hexDigit ((n / 256) mod 16))
       (String (hexDigit ((n / 16) mod 16))
          (String (hexDigit (n mod 16)) EmptyString))).

Definition byteOf (c : ascii) : Z := Z.of_N (N_of_ascii c).

Definition escapeByteSpec (c : ascii) : string :=
  if byteOf c =? 34 then BSL ++ DQ                (* double quote *)
  else if byteOf c =? 92 then BSL ++ BSL          (* backslash *)
  else if byteOf c =? 8 then BSL ++ "b"           (* backspace *)
  else if byteOf c =? 12 then BSL ++ "f"          (* form feed *)
  else if byteOf c =? 10 then BSL ++ "n"          (* newline *)
  else if byteOf c =? 13 then BSL ++ "r"          (* carriage return *)
  else if byteOf c =? 9 then BSL ++ "t"           (* tab *)
  else if byteOf c <? 32 then BSL ++ "u" ++ hex4 (byteOf c)
  else String c EmptyString.

Definition escapeSpec (S : string) : string :=
  String.concat EmptyString (map escapeByteSpec (list_ascii_of_string S)).

Definition isDigit (c : ascii) : bool :=
  (48 <=? byteOf c) && (byteOf c <=? 57).

Fixpoint allDigits (s : string) : bool :=
  match s with
  | EmptyString => true
  | String c s' => isDigit c && allDigits s'
  end.

(** One entry of the listing: an object with the keys [id] and [name]. *)
Definition renderEntry (R : Z * FieldInfo) : string :=
  "{" ++ DQ ++ "id" ++ DQ ++ ":" ++ DQ ++ utostr (fst R) ++ DQ
  ++ "," ++ DQ ++ "name" ++ DQ ++ ":" ++ DQ ++ writeEscaped (type (snd R))
  ++ DQ ++ "}".

(** The listing: the entries separated by commas, in brackets. *)
Definition renderListing (m : StdMap.t) : string :=
  "[" ++ String.concat "," (map renderEntry m) ++ "]".

(** [x] is a contiguous part of the text [y]. *)
Definition occursIn (x y : string) : Prop :=
  exists pre post, y = pre ++ x ++ post.

(** What holds of the store in every state a host can reach: the keys
    ascend strictly and every tree was built by [analyzeRecord]. *)
Definition StoreInvariant (sort : SortFn) (m : StdMap.t) : Prop :=
  StdMap.ordered m
  /\ Forall (fun R => exists Ctx RD, snd R = analyzeRecord sort Ctx RD) m.

(** The AND of the declaration flags the analysis of [RD] reads: the flag
    of [RD] itself (line 109); for each non-virtual base, those of the base
    class (lines 135-138); for each field whose type is a class, those of
    that class, the flag of the field declaration itself not being read
    (lines 154-160); for each other field, the flag of the field declaration
    (line 163). *)
Fixpoint declValid (RD : CXXRecordDecl) : bool :=
  match RD with
  | mkCXXRecordDecl _ _ invalid _ bs fs =>
      negb invalid
      && forallb (fun B => isVirtual B || declValid (baseDecl B)) bs
      && forallb (fun F => match getAsCXXRecordDecl (getType F) with
                           | Some R => declValid R
                           | None => negb (fieldIsInvalidDecl F)
                           end) fs
  end.

(** [RD] and the class declarations the analysis of [RD] descends into:
    those of its non-virtual bases and of its fields of class type. *)
Fixpoint subDecls (RD : CXXRecordDecl) : list CXXRecordDecl :=
  match RD with
  | mkCXXRecordDecl _ _ _ _ bs fs =>
      RD :: (flat_map (fun B => if isVirtual B then []
                                else subDecls (baseDecl B)) bs
             ++ flat_map (fun F => match getAsCXXRecordDecl (getType F) with
                                   | Some R => subDecls R
                                   | None => []
                                   end) fs)%list
  end.

(** Where the flag of a node [n] in the tree of [RD] comes from.  The node
    is a vptr node, whose flag is true; or the node of a class [RD'] (a
    root, a base or a member of class type), whose flag is the AND of the
    flag of the declaration of [RD'] and the flags of its children; or the
    node of a field [F] whose type is no class, whose flag is that of the
    declaration of [F]. *)
Definition validityExplained (sort : SortFn) (Ctx : ASTContext)
           (RD : CXXRecordDecl) (n : FieldInfo) : Prop :=
  (fieldType n = VPtr /\ isValid n = true /\ subFields n = [])
  \/ (exists RD',
         In RD' (subDecls RD)
         /\ (fieldType n = Record_ \/ fieldType n = NVBase)
         /\ type n = getQualifiedNameAsString RD'
         /\ subFields n = subFields (analyzeRecord sort Ctx RD')
         /\ isValid n
            = negb (isInvalidDecl RD') && forallb isValid (subFields n)
         /\ isValid n = declValid RD')
  \/ (exists RD' i F,
         In RD' (subDecls RD)
         /\ nth_error (fields RD') i = Some F
         /\ getAsCXXRecordDecl (getType F) = None
         /\ (fieldType n = Simple \/ fieldType n = BitField)
         /\ name n = getNameAsString F
         /\ offset n
            = wrap64 (getFieldOffset (getASTRecordLayout Ctx RD') (Z.of_nat i))
         /\ isValid n = negb (fieldIsInvalidDecl F)
         /\ subFields n = []).

(** ** Vocabulary of the further properties *)

Definition isSpace (c : ascii) : bool := Ascii.eqb c " "%char.

(** Every character of [s] satisfies [p]. *)
Fixpoint allBytes (p : ascii -> bool) (s : string) : bool :=
  match s with
  | EmptyString => true
  | String c s' => p c && allBytes p s'
  end.

(** [s] without its space characters. *)
Fixpoint removeSpaces (s : string) : string :=
  match s with
  | EmptyString => EmptyString
  | String c s' =>
      if isSpace c then removeSpaces s' else String c (removeSpaces s')
  end.

(** A non-empty word without a space. *)
Definition isToken (t : string) : bool :=
  negb (emptyb t) && allBytes (fun c => negb (isSpace c)) t.

(** A byte [writeEscaped] has no case for: not a control byte, not the
    double quote, not the backslash. *)
Definition plainByte (c : ascii) : bool :=
  (32 <=? byteOf c) && negb (byteOf c =? 34) && negb (byteOf c =? 92).

(** A reader for the escapes [writeEscaped] writes; it serves to show that
    no two strings are escaped to the same text. *)
Definition hexValue (c : ascii) : option Z :=
  if (48 <=? byteOf c) && (byteOf c <=? 57) then Some (byteOf c - 48)
  else if (65 <=? byteOf c) && (byteOf c <=? 70) then Some (byteOf c - 55)
  else None.

Definition simpleEscape (e : ascii) : option ascii :=
  match byteOf e with
  | 34 => Some "034"%char
  | 92 => Some "092"%char
  | 98 => Some "008"%char
  | 102 => Some "012"%char
  | 110 => Some "010"%char
  | 114 => Some "013"%char
  | 116 => Some "009"%char
  | _ => None
  end.

Fixpoint unescape (s : string) : option string :=
  match s with
  | EmptyString => Some EmptyString
  | String c r =>
      if byteOf c =? 92 then
        match r with
        | EmptyString => None
        | String e r' =>
            if byteOf e =? 117 then
              match r' with
              | String h1 (String h2 (String h3 (String h4 r''))) =>
                  match hexValue h1, hexValue h2, hexValue h3, hexValue h4 with
                  | Some 0, Some 0, Some a, Some b =>
                      option_map (String (ascii_of_N (Z.to_N (16 * a + b))))
                                 (unescape r'')
                  | _, _, _, _ => None
                  end
              | _ => None
              end
            else
              match simpleEscape e with
              | Some c' => option_map (String c') (unescape r')
              | None => None
              end
        end
      else option_map (String c) (unescape r)
  end.

(** The first complete declaration with identity [id] among the
    declarations the visitor is handed. *)
Fixpoint firstComplete (id : Z) (ds : list (option CXXRecordDecl))
  : option CXXRecordDecl :=
  match ds with
  | [] => None
  | None :: ds' => firstComplete id ds'
  | Some RD :: ds' =>
      if isCompleteDefinition RD && (getID RD =? id) then Some RD
      else firstComplete id ds'
  end.

(** The two entry points that return text. *)
Definition isQuery (c : Call) : bool :=
  match c with
  | CallGetRecordList | CallGetLayoutForRecord _ => true
  | _ => false
  end.

Definition isSetArgs (c : Call) : bool :=
  match c with CallSetArgs _ => true | _ => false end.

(** What holds of the scalar members of every node of an analysed tree. *)
Record NodeShape (F : FieldInfo) : Prop := {
  shape_bitWidth : fieldType F <> BitField -> bitWidth F = 0;
  shape_bitWidth_range : 0 <= bitWidth F < 2 ^ 64;
  shape_base : fieldType F = NVBase ->
               name F = EmptyString /\ (offset F) mod 8 = 0
}.

(** * Properties *)

(** ** Induction over declarations and over layout trees *)

Lemma CXXRecordDecl_induction (P : CXXRecordDecl -> Prop) :
  (forall RD,
      (forall B, In B (bases RD) -> P (baseDecl B)) ->
      (forall F R, In F (fields RD) ->
                   getAsCXXRecordDecl (getType F) = Some R -> P R) ->
      P RD) ->
  forall RD, P RD.
Proof.
  intros step. fix IH 1. intros [id c v q bs fs]. apply step; simpl.
  - induction bs as [|[vi d] bs IHbs]; intros B HB; [destruct HB|].
    destruct HB as [<-|HB]; [apply IH | now apply IHbs].
  - induction fs as [|[n i [sp [d|]] b w] fs IHfs]; intros F R HF HR;
      [destruct HF| |].
    + destruct HF as [<-|HF]; [|now apply (IHfs F R)].
      simpl in HR. injection HR as <-. apply IH.
    + destruct HF as [<-|HF]; [|now apply (IHfs F R)].
      discriminate HR.
Qed.

Lemma FieldInfo_induction (P : FieldInfo -> Prop) :
  (forall F, Forall P (subFields F) -> P F) -> forall F, P F.
Proof.
  intros step. fix IH 1. intros [v ft n t o s a b subs]. apply step; simpl.
  induction subs as [|c subs IHs]; constructor; [apply IH | exact IHs].
Qed.

Lemma nodes_eq F : nodes F = F :: flat_map nodes (subFields F).
Proof. now destruct F. Qed.

Lemma subtreeValid_eq F :
  subtreeValid F = isValid F && forallb subtreeValid (subFields F).
Proof. now destruct F. Qed.

Lemma nodes_self F : In F (nodes F).
Proof. rewrite nodes_eq. now left. Qed.

Lemma nodes_child F c n : In c (subFields F) -> In n (nodes c) -> In n (nodes F).
Proof.
  intros Hc Hn. rewrite nodes_eq. right. apply in_flat_map. now exists c.
Qed.

(** ** The two loops as maps over the declaration lists *)

Lemma basesLoop_spec analyze Layout bs Info Bases :
  basesLoop analyze Layout bs Info Bases =
  (set_isValid (isValid Info && forallb isValid (baseNodes analyze Layout bs))
               Info,
   (Bases ++ baseNodes analyze Layout bs)%list).
Proof.
  revert Info Bases. unfold baseNodes.
  induction bs as [|Base bs IH]; intros Info Bases; simpl.
  - rewrite andb_true_r, app_nil_r. now destruct Info.
  - destruct (isVirtual Base); simpl; [apply IH|].
    rewrite IH. unfold baseNode. simpl.
    rewrite andb_assoc, <- app_assoc. reflexivity.
Qed.

Lemma fieldsLoop_spec analyze Ctx Layout fs fieldIndex Info :
  fieldsLoop analyze Ctx Layout fs fieldIndex Info =
  insert_end (fieldNodes analyze Ctx Layout fieldIndex fs)
    (set_isValid
       (isValid Info
        && forallb isValid (fieldNodes analyze Ctx Layout fieldIndex fs))
       Info).
Proof.
  revert fieldIndex Info.
  induction fs as [|Field fs IH]; intros fieldIndex Info; simpl.
  - rewrite andb_true_r. unfold insert_end. simpl. rewrite app_nil_r.
    now destruct Info.
  - rewrite IH. unfold fieldNode.
    destruct (getAsCXXRecordDecl (getType Field)) as [FieldRecord|].
    + unfold insert_end. simpl. rewrite andb_assoc, <- app_assoc. reflexivity.
    + destruct (isBitField Field); unfold insert_end; simpl;
        rewrite andb_assoc, <- app_assoc; reflexivity.
Qed.

(** The result of [analyzeRecord], member by member. *)
Lemma analyzeRecord_eq sort Ctx RD :
  analyzeRecord sort Ctx RD =
  mkFieldInfo
    (negb (isInvalidDecl RD)
     && forallb isValid
          (baseNodes (analyzeRecord sort Ctx) (getASTRecordLayout Ctx RD)
                     (bases RD))
     && forallb isValid
          (fieldNodes (analyzeRecord sort Ctx) Ctx (getASTRecordLayout Ctx RD)
                      0 (fields RD)))
    Record_ EmptyString (getQualifiedNameAsString RD) 0
    (getSize (getASTRecordLayout Ctx RD))
    (getAlignment (getASTRecordLayout Ctx RD)) 0
    ((if hasOwnVFPtr (getASTRecordLayout Ctx RD)
      then [makeVPtrInfo Ctx] else [])
       ++ sort _ offsetLess
            (baseNodes (analyzeRecord sort Ctx) (getASTRecordLayout Ctx RD)
                       (bases RD))
       ++ fieldNodes (analyzeRecord sort Ctx) Ctx (getASTRecordLayout Ctx RD)
                     0 (fields RD))%list.
Proof.
  destruct RD as [id c v q bs fs].
  change (analyzeRecord sort Ctx (mkCXXRecordDecl id c v q bs fs)) with
    (let Layout := getASTRecordLayout Ctx (mkCXXRecordDecl id c v q bs fs) in
     let Info :=
       set_align (getAlignment Layout)
         (set_size (getSize Layout)
            (set_type q (set_fieldType Record_
                           (set_isValid (negb v) newFieldInfo)))) in
     let Info :=
       if hasOwnVFPtr Layout then push_back (makeVPtrInfo Ctx) Info
       else Info in
     let '(Info, Bases) :=
       basesLoop (analyzeRecord sort Ctx) Layout bs Info [] in
     fieldsLoop (analyzeRecord sort Ctx) Ctx Layout fs 0
                (insert_end (sort _ offsetLess Bases) Info)).
  cbv zeta. rewrite basesLoop_spec, fieldsLoop_spec.
  destruct (hasOwnVFPtr _); simpl; rewrite <- ?app_assoc; reflexivity.
Qed.

(** ** The comparator and the sorted bases *)

Lemma offsetLess_swo : StrictWeakOrder offsetLess.
Proof.
  unfold offsetLess. split.
  - intros a. apply Z.ltb_irrefl.
  - intros a b c H1 H2. apply Z.ltb_lt in H1, H2. apply Z.ltb_lt. lia.
  - intros a b c H1 H2 H3 H4.
    apply Z.ltb_ge in H1, H2, H3, H4. split; apply Z.ltb_ge; lia.
Qed.

Lemma forallb_perm {A} (f : A -> bool) l l' :
  Permutation l l' -> forallb f l = forallb f l'.
Proof.
  induction 1; simpl; try congruence.
  now rewrite !andb_assoc, (andb_comm (f y)).
Qed.

Section Sorted.
Variable sort : SortFn.
Hypothesis sort_ok : SortContract sort.

Lemma sorted_bases_perm (l : list FieldInfo) :
  Permutation l (sort _ offsetLess l).
Proof. apply (sort_perm sort sort_ok). Qed.

Lemma sorted_bases_ascending (l : list FieldInfo) :
  StronglySorted (fun a b => offset a <= offset b) (sort _ offsetLess l).
Proof.
  pose proof (sort_sorted sort sort_ok _ offsetLess l offsetLess_swo) as H.
  induction H as [|a l' Hs IH Ha]; constructor; [exact IH|].
  eapply Forall_impl; [|exact Ha].
  intros b Hb. unfold offsetLess in Hb. now apply Z.ltb_ge in Hb.
Qed.

Lemma sorted_bases_In (l : list FieldInfo) x :
  In x (sort _ offsetLess l) <-> In x l.
Proof.
  split; apply Permutation_in;
    [symmetry|]; apply sorted_bases_perm.
Qed.

(** ** Validity of the root *)

Lemma analyzeRecord_isValid Ctx RD :
  isValid (analyzeRecord sort Ctx RD) =
  negb (isInvalidDecl RD)
  && forallb isValid (subFields (analyzeRecord sort Ctx RD)).
Proof.
  rewrite analyzeRecord_eq. simpl.
  rewrite !forallb_app, <- (forallb_perm _ _ _ (sorted_bases_perm _)).
  rewrite <- andb_assoc. f_equal.
  destruct (hasOwnVFPtr _); reflexivity.
Qed.

Lemma analyzeRecord_fieldType Ctx RD :
  fieldType (analyzeRecord sort Ctx RD) = Record_.
Proof. now rewrite analyzeRecord_eq. Qed.

(** ** The invariant of every node *)

Lemma wrap64_range z : 0 <= wrap64 z < 2 ^ 64.
Proof. apply Z.mod_pos_bound. reflexivity. Qed.

Lemma NodeInvariant_base F v :
  NodeInvariant F -> fieldType F = Record_ ->
  NodeInvariant (set_offset v (set_fieldType NVBase F)).
Proof.
  intros [Ho Hv Hp Hk Hl] Hft. split.
  - apply wrap64_range.
  - transitivity (subtreeValid F); [exact Hv|].
    rewrite !subtreeValid_eq. reflexivity.
  - discriminate.
  - discriminate.
  - intros _. now right.
Qed.

Lemma NodeInvariant_member F n v :
  NodeInvariant F -> fieldType F = Record_ ->
  NodeInvariant (set_offset v (set_name n F)).
Proof.
  intros [Ho Hv Hp Hk Hl] Hft. split.
  - apply wrap64_range.
  - transitivity (subtreeValid F); [exact Hv|].
    rewrite !subtreeValid_eq. reflexivity.
  - simpl. rewrite Hft. discriminate.
  - simpl. rewrite Hft. discriminate.
  - intros _. now left.
Qed.

Lemma NodeInvariant_vptr Ctx : NodeInvariant (makeVPtrInfo Ctx).
Proof.
  split; simpl.
  - apply wrap64_range.
  - reflexivity.
  - intros _. repeat split.
  - discriminate.
  - intros H. now contradiction H.
Qed.

Lemma forallb_subtreeValid l :
  Forall (fun c => Forall NodeInvariant (nodes c)) l ->
  forallb subtreeValid l = forallb isValid l.
Proof.
  induction 1 as [|c l Hc _ IH]; simpl; [reflexivity|].
  rewrite IH. f_equal.
  rewrite nodes_eq in Hc. apply Forall_inv in Hc.
  symmetry. apply (inv_valid _ Hc).
Qed.

Lemma analyzeRecord_invariant Ctx RD :
  Forall NodeInvariant (nodes (analyzeRecord sort Ctx RD)).
Proof.
  induction RD as [RD IHb IHf] using CXXRecordDecl_induction.
  assert (Hch : Forall (fun c => Forall NodeInvariant (nodes c))
                       (subFields (analyzeRecord sort Ctx RD))).
  { rewrite analyzeRecord_eq. simpl.
    apply Forall_app; split; [|apply Forall_app; split].
    - destruct (hasOwnVFPtr _); constructor; [|constructor].
      rewrite nodes_eq. simpl. constructor; [|constructor].
      apply NodeInvariant_vptr.
    - apply (Permutation_Forall (sorted_bases_perm _)).
      unfold baseNodes. apply Forall_map, Forall_forall.
      intros B HB. apply filter_In in HB as [HB _].
      specialize (IHb B HB). rewrite nodes_eq in IHb.
      unfold baseNode. rewrite nodes_eq. simpl.
      inversion IHb as [|? ? Hroot Hrest]; subst.
      constructor; [|exact Hrest].
      apply NodeInvariant_base; [exact Hroot|apply analyzeRecord_fieldType].
    - generalize 0 as i.
      induction (fields RD) as [|Field fs IHfs]; intros i; simpl;
        constructor.
      + unfold fieldNode.
        destruct (getAsCXXRecordDecl (getType Field)) as [R|] eqn:HR.
        * specialize (IHf Field R (or_introl eq_refl) HR).
          rewrite nodes_eq in IHf. rewrite nodes_eq. simpl.
          inversion IHf as [|? ? Hroot Hrest]; subst.
          constructor; [|exact Hrest].
          apply NodeInvariant_member;
            [exact Hroot|apply analyzeRecord_fieldType].
        * rewrite nodes_eq. simpl. constructor; [|constructor].
          split; simpl.
          -- apply wrap64_range.
          -- now rewrite andb_true_r.
          -- destruct (isBitField Field); discriminate.
          -- destruct (isBitField Field); discriminate.
          -- intros H. now contradiction H.
      + apply IHfs. intros F R HF. apply IHf. now right. }
  rewrite nodes_eq. constructor.
  - split.
    + rewrite analyzeRecord_eq. simpl. split; [lia|reflexivity].
    + rewrite subtreeValid_eq, (forallb_subtreeValid _ Hch).
      rewrite analyzeRecord_isValid at 1 2.
      destruct (negb (isInvalidDecl RD)),
        (forallb isValid (subFields (analyzeRecord sort Ctx RD)));
        reflexivity.
    + rewrite analyzeRecord_fieldType. discriminate.
    + rewrite analyzeRecord_fieldType. discriminate.
    + intros _. left. apply analyzeRecord_fieldType.
  - apply Forall_flat_map. exact Hch.
Qed.
End Sorted.

(** ** Kinds and positions of the children *)

Lemma filter_true {A} (f : A -> bool) l :
  Forall (fun x => f x = true) l -> filter f l = l.
Proof.
  induction 1 as [|x l Hx _ IH]; simpl; [reflexivity|].
  now rewrite Hx, IH.
Qed.

Lemma filter_false {A} (f : A -> bool) l :
  Forall (fun x => f x = false) l -> filter f l = [].
Proof.
  induction 1 as [|x l Hx _ IH]; simpl; [reflexivity|].
  now rewrite Hx.
Qed.

Lemma baseNodes_kind analyze Layout bs :
  Forall (fun c => fieldType c = NVBase) (baseNodes analyze Layout bs).
Proof.
  unfold baseNodes. apply Forall_map, Forall_forall. intros B _. reflexivity.
Qed.

Lemma baseNodes_length analyze Layout bs :
  List.length (baseNodes analyze Layout bs)
  = List.length (filter (fun B => negb (isVirtual B)) bs).
Proof. unfold baseNodes. apply length_map. Qed.

Lemma fieldNode_kind sort Ctx Layout i Field :
  let c := fieldNode (analyzeRecord sort Ctx) Ctx Layout i Field in
  fieldType c = Record_ \/ fieldType c = Simple \/ fieldType c = BitField.
Proof.
  unfold fieldNode.
  destruct (getAsCXXRecordDecl (getType Field)) as [R|]; simpl.
  - left. now rewrite analyzeRecord_eq.
  - destruct (isBitField Field); auto.
Qed.

Lemma fieldNodes_kind sort Ctx Layout i fs :
  Forall (fun c => fieldType c = Record_ \/ fieldType c = Simple
                   \/ fieldType c = BitField)
         (fieldNodes (analyzeRecord sort Ctx) Ctx Layout i fs).
Proof.
  revert i. induction fs as [|Field fs IH]; intros i; simpl; constructor.
  - apply fieldNode_kind.
  - apply IH.
Qed.

Lemma fieldNode_name analyze Ctx Layout i Field :
  name (fieldNode analyze Ctx Layout i Field) = getNameAsString Field.
Proof.
  unfold fieldNode. now destruct (getAsCXXRecordDecl (getType Field)).
Qed.

Lemma fieldNode_offset analyze Ctx Layout i Field :
  offset (fieldNode analyze Ctx Layout i Field)
  = wrap64 (getFieldOffset Layout i).
Proof.
  unfold fieldNode. now destruct (getAsCXXRecordDecl (getType Field)).
Qed.

Lemma fieldNodes_nth analyze Ctx Layout k fs i :
  nth_error (fieldNodes analyze Ctx Layout k fs) i
  = option_map (fieldNode analyze Ctx Layout (k + Z.of_nat i))
               (nth_error fs i).
Proof.
  revert k i. induction fs as [|Field fs IH]; intros k [|i]; simpl; trivial.
  - now rewrite Z.add_0_r.
  - rewrite IH. now replace (k + 1 + Z.of_nat i) with (k + Z.pos (Pos.of_succ_nat i)) by lia.
Qed.

Section Children.
Variable sort : SortFn.
Hypothesis sort_ok : SortContract sort.
Variable Ctx : ASTContext.
Variable RD : CXXRecordDecl.

Let Layout := getASTRecordLayout Ctx RD.
Let T := analyzeRecord sort Ctx RD.
Let Bases := sort _ offsetLess
                  (baseNodes (analyzeRecord sort Ctx) Layout (bases RD)).
Let Fields := fieldNodes (analyzeRecord sort Ctx) Ctx Layout 0 (fields RD).

Lemma children_eq :
  subFields T
  = ((if hasOwnVFPtr Layout then [makeVPtrInfo Ctx] else [])
       ++ Bases ++ Fields)%list.
Proof. unfold T. now rewrite analyzeRecord_eq. Qed.

Lemma sorted_bases_kind : Forall (fun c => fieldType c = NVBase) Bases.
Proof.
  apply (Permutation_Forall (sorted_bases_perm sort sort_ok _)).
  apply baseNodes_kind.
Qed.

Lemma filter_isNVBase_children : filter isNVBase (subFields T) = Bases.
Proof.
  rewrite children_eq, !filter_app.
  rewrite (filter_true isNVBase Bases), (filter_false isNVBase Fields).
  - rewrite app_nil_r. now destruct (hasOwnVFPtr Layout).
  - eapply Forall_impl; [|apply fieldNodes_kind].
    intros c Hc. unfold isNVBase.
    destruct Hc as [-> | [-> | ->]]; reflexivity.
  - eapply Forall_impl; [|apply sorted_bases_kind].
    intros c Hc. unfold isNVBase. now rewrite Hc.
Qed.

Lemma no_vptr_without_own_vfptr :
  hasOwnVFPtr Layout = false ->
  Forall (fun c => fieldType c <> VPtr) (subFields T).
Proof.
  intros Hno. rewrite children_eq, Hno. simpl.
  apply Forall_app; split.
  - eapply Forall_impl; [|apply sorted_bases_kind].
    intros c Hc. rewrite Hc. discriminate.
  - eapply Forall_impl; [|apply fieldNodes_kind].
    intros c [Hc | [Hc | Hc]]; rewrite Hc; discriminate.
Qed.
End Children.

(** ** Claims about the analysis *)

(** C1 (amended).  The children of an analysed record are, in this order:
    the vptr node if the record owns one, the nodes of the non-virtual bases,
    the nodes of the fields.  The base nodes are exactly the children of kind
    [NVBase]; they are a rearrangement of the bases of the inheritance list
    and their offsets ascend, equal offsets being possible.  The i-th field
    node belongs to the i-th declared field, whatever its offset. *)
Theorem children_are_vptr_sorted_bases_fields
        (sort : SortFn) (sort_ok : SortContract sort)
        (Ctx : ASTContext) (RD : CXXRecordDecl) :
  exists Bases Fields : list FieldInfo,
    subFields (analyzeRecord sort Ctx RD)
    = ((if hasOwnVFPtr (getASTRecordLayout Ctx RD)
        then [makeVPtrInfo Ctx] else []) ++ Bases ++ Fields)%list
    /\ Bases = filter isNVBase (subFields (analyzeRecord sort Ctx RD))
    /\ Permutation
         (baseNodes (analyzeRecord sort Ctx) (getASTRecordLayout Ctx RD)
                    (bases RD))
         Bases
    /\ StronglySorted (fun a b => offset a <= offset b) Bases
    /\ List.length Fields = List.length (fields RD)
    /\ forall i Field,
        nth_error (fields RD) i = Some Field ->
        exists c,
          nth_error Fields i = Some c
          /\ c = fieldNode (analyzeRecord sort Ctx) Ctx
                           (getASTRecordLayout Ctx RD) (Z.of_nat i) Field
          /\ name c = getNameAsString Field
          /\ offset c
             = wrap64 (getFieldOffset (getASTRecordLayout Ctx RD)
                                      (Z.of_nat i)).
Proof.
  eexists. eexists. split; [apply children_eq|].
  split; [symmetry; now apply filter_isNVBase_children|].
  split; [now apply sorted_bases_perm|].
  split; [now apply sorted_bases_ascending|].
  split.
  - generalize 0. induction (fields RD) as [|F fs IH]; intros k; simpl;
      [reflexivity|]. now rewrite IH.
  - intros i Field Hi. rewrite fieldNodes_nth, Hi. simpl.
    eexists. split; [reflexivity|]. split; [reflexivity|].
    split; [apply fieldNode_name | apply fieldNode_offset].
Qed.

(** ** Validity read off the declarations *)

Lemma declValid_eq RD :
  declValid RD
  = negb (isInvalidDecl RD)
    && forallb (fun B => isVirtual B || declValid (baseDecl B)) (bases RD)
    && forallb (fun F => match getAsCXXRecordDecl (getType F) with
                         | Some R => declValid R
                         | None => negb (fieldIsInvalidDecl F)
                         end) (fields RD).
Proof. now destruct RD. Qed.

Lemma subDecls_eq RD :
  subDecls RD
  = RD :: (flat_map (fun B => if isVirtual B then []
                              else subDecls (baseDecl B)) (bases RD)
           ++ flat_map (fun F => match getAsCXXRecordDecl (getType F) with
                                 | Some R => subDecls R
                                 | None => []
                                 end) (fields RD))%list.
Proof. now destruct RD. Qed.

Lemma subDecls_self RD : In RD (subDecls RD).
Proof. rewrite subDecls_eq. now left. Qed.

Lemma subDecls_base RD B x :
  In B (bases RD) -> isVirtual B = false ->
  In x (subDecls (baseDecl B)) -> In x (subDecls RD).
Proof.
  intros HB Hv Hx. rewrite subDecls_eq. right. apply in_or_app. left.
  apply in_flat_map. exists B. split; [exact HB|]. now rewrite Hv.
Qed.

Lemma subDecls_member RD F R x :
  In F (fields RD) -> getAsCXXRecordDecl (getType F) = Some R ->
  In x (subDecls R) -> In x (subDecls RD).
Proof.
  intros HF HR Hx. rewrite subDecls_eq. right. apply in_or_app. right.
  apply in_flat_map. exists F. split; [exact HF|]. now rewrite HR.
Qed.

Lemma analyzeRecord_declValid sort Ctx RD :
  isValid (analyzeRecord sort Ctx RD) = declValid RD.
Proof.
  induction RD as [RD IHb IHf] using CXXRecordDecl_induction.
  rewrite analyzeRecord_eq, declValid_eq. simpl. f_equal; [f_equal|].
  - unfold baseNodes.
    induction (bases RD) as [|B bs IH]; [reflexivity|].
    simpl. destruct (isVirtual B) eqn:Hv; simpl.
    + apply IH. intros B' HB'. apply IHb. now right.
    + rewrite (IHb B (or_introl eq_refl)). f_equal.
      apply IH. intros B' HB'. apply IHb. now right.
  - generalize 0 as k.
    induction (fields RD) as [|F fs IH]; intros k; [reflexivity|].
    simpl. f_equal.
    + unfold fieldNode.
      destruct (getAsCXXRecordDecl (getType F)) as [R|] eqn:HR; simpl;
        [|reflexivity].
      apply (IHf F R (or_introl eq_refl) HR).
    + apply IH. intros F' R HF'. apply IHf. now right.
Qed.

Lemma In_fieldNodes analyze Ctx Layout k fs c :
  In c (fieldNodes analyze Ctx Layout k fs) ->
  exists i F,
    nth_error fs i = Some F
    /\ c = fieldNode analyze Ctx Layout (k + Z.of_nat i) F.
Proof.
  intros Hc. apply In_nth_error in Hc as [i Hi].
  rewrite fieldNodes_nth in Hi.
  destruct (nth_error fs i) as [F|] eqn:HF; [|discriminate].
  exists i, F. split; [exact HF|]. simpl in Hi. now injection Hi.
Qed.

Lemma validityExplained_mono sort Ctx RD1 RD2 n :
  (forall x, In x (subDecls RD1) -> In x (subDecls RD2)) ->
  validityExplained sort Ctx RD1 n -> validityExplained sort Ctx RD2 n.
Proof.
  intros Hsub [H|[(RD' & Hin & H)|(RD' & i & F & Hin & H)]].
  - now left.
  - right. left. exists RD'. split; [now apply Hsub|exact H].
  - right. right. exists RD', i, F. split; [now apply Hsub|exact H].
Qed.

Section Explained.
Variable sort : SortFn.
Hypothesis sort_ok : SortContract sort.
Variable Ctx : ASTContext.

Lemma class_node_explained RD n :
  (fieldType n = Record_ \/ fieldType n = NVBase) ->
  type n = type (analyzeRecord sort Ctx RD) ->
  subFields n = subFields (analyzeRecord sort Ctx RD) ->
  isValid n = isValid (analyzeRecord sort Ctx RD) ->
  validityExplained sort Ctx RD n.
Proof.
  intros Hk Hty Hsub Hv. right. left. exists RD.
  split; [apply subDecls_self|]. split; [exact Hk|].
  split; [rewrite Hty; now rewrite analyzeRecord_eq|].
  split; [exact Hsub|]. split.
  - rewrite Hv, Hsub. now apply analyzeRecord_isValid.
  - rewrite Hv. apply analyzeRecord_declValid.
Qed.

Lemma nodes_explained RD n :
  In n (nodes (analyzeRecord sort Ctx RD)) ->
  validityExplained sort Ctx RD n.
Proof.
  revert n. induction RD as [RD IHb IHf] using CXXRecordDecl_induction.
  intros n Hn. rewrite nodes_eq in Hn. destruct Hn as [<-|Hn].
  { apply class_node_explained; trivial.
    left. now rewrite analyzeRecord_eq. }
  apply in_flat_map in Hn as (c & Hc & Hn).
  rewrite children_eq in Hc.
  apply in_app_or in Hc as [Hc|Hc]; [|apply in_app_or in Hc as [Hc|Hc]].
  - destruct (hasOwnVFPtr _); [|destruct Hc].
    destruct Hc as [<-|[]]. rewrite nodes_eq in Hn. simpl in Hn.
    destruct Hn as [<-|[]]. left. repeat split.
  - apply (proj1 (sorted_bases_In sort sort_ok _ _)) in Hc.
    unfold baseNodes in Hc. apply in_map_iff in Hc as (B & <- & HB).
    apply filter_In in HB as [HB Hv].
    assert (Hv' : isVirtual B = false) by now destruct (isVirtual B).
    apply (validityExplained_mono sort Ctx (baseDecl B));
      [intros x; now apply subDecls_base|].
    rewrite nodes_eq in Hn. destruct Hn as [<-|Hn].
    + apply class_node_explained; trivial. now right.
    + apply (IHb B HB). rewrite nodes_eq. right. exact Hn.
  - apply In_fieldNodes in Hc as (i & F & HF & ->).
    pose proof (nth_error_In _ _ HF) as HFin.
    unfold fieldNode in Hn |- *.
    destruct (getAsCXXRecordDecl (getType F)) as [R|] eqn:HR.
    + apply (validityExplained_mono sort Ctx R);
        [intros x; now apply (subDecls_member RD F R)|].
      rewrite nodes_eq in Hn. destruct Hn as [<-|Hn].
      * apply class_node_explained; trivial.
        left. simpl. now rewrite analyzeRecord_eq.
      * apply (IHf F R HFin HR). rewrite nodes_eq. right. exact Hn.
    + rewrite nodes_eq in Hn. simpl in Hn. destruct Hn as [<-|[]].
      right. right. exists RD, i, F.
      split; [apply subDecls_self|]. split; [exact HF|].
      split; [exact HR|]. simpl.
      split; [destruct (isBitField F); auto|].
      repeat split.
Qed.

Lemma field_child_at RD i :
  nth_error (subFields (analyzeRecord sort Ctx RD))
            ((if hasOwnVFPtr (getASTRecordLayout Ctx RD) then 1 else 0)
             + List.length (filter (fun B => negb (isVirtual B)) (bases RD))
             + i)
  = option_map (fieldNode (analyzeRecord sort Ctx) Ctx
                          (getASTRecordLayout Ctx RD) (Z.of_nat i))
               (nth_error (fields RD) i).
Proof.
  rewrite children_eq.
  assert (HL : List.length
                 (sort FieldInfo offsetLess
                       (baseNodes (analyzeRecord sort Ctx)
                                  (getASTRecordLayout Ctx RD) (bases RD)))
               = List.length (filter (fun B => negb (isVirtual B)) (bases RD))).
  { rewrite <- (Permutation_length (sorted_bases_perm sort sort_ok _)).
    apply baseNodes_length. }
  rewrite nth_error_app2 by (destruct (hasOwnVFPtr _); simpl; lia).
  rewrite nth_error_app2 by (destruct (hasOwnVFPtr _); simpl; lia).
  replace (_ - _ - _)%nat with i by (destruct (hasOwnVFPtr _); simpl; lia).
  rewrite fieldNodes_nth. reflexivity.
Qed.
End Explained.

(** C2.  The validity flag of an analysed record is the AND of the
    declaration's own validity and the flags of its children, and so of the
    flags of all its descendants.  Read off the declarations, it is the AND
    of the flags of the record, of the classes of its non-virtual bases and
    class-type members, recursively, and of its other fields.  The children
    carry these flags: a base node and a member of class type the flag of
    the analysed class (for such a member the flag of the field declaration
    itself is not read), any other field the flag of its declaration.  The
    same holds at every node of the tree: its flag is true for a vptr, the
    AND of its class declaration's flag and its children's flags for the
    node of a class, and the field declaration's flag for any other field.
    Every non-virtual base has its node among the children, whether or not
    the base is valid. *)
Theorem isValid_is_and_over_descendants
        (sort : SortFn) (sort_ok : SortContract sort)
        (Ctx : ASTContext) (RD : CXXRecordDecl) :
  isValid (analyzeRecord sort Ctx RD)
  = negb (isInvalidDecl RD)
    && forallb isValid (subFields (analyzeRecord sort Ctx RD))
  /\ isValid (analyzeRecord sort Ctx RD)
     = negb (isInvalidDecl RD)
       && forallb subtreeValid (subFields (analyzeRecord sort Ctx RD))
  /\ (forall n, In n (nodes (analyzeRecord sort Ctx RD)) ->
                isValid n = subtreeValid n)
  /\ Permutation
       (baseNodes (analyzeRecord sort Ctx) (getASTRecordLayout Ctx RD)
                  (bases RD))
       (filter isNVBase (subFields (analyzeRecord sort Ctx RD)))
  /\ List.length (filter isNVBase (subFields (analyzeRecord sort Ctx RD)))
     = List.length (filter (fun B => negb (isVirtual B)) (bases RD))
  /\ isValid (analyzeRecord sort Ctx RD) = declValid RD
  /\ Permutation
       (map (fun B => (isValid (analyzeRecord sort Ctx (baseDecl B)),
                       subFields (analyzeRecord sort Ctx (baseDecl B))))
            (filter (fun B => negb (isVirtual B)) (bases RD)))
       (map (fun c => (isValid c, subFields c))
            (filter isNVBase (subFields (analyzeRecord sort Ctx RD))))
  /\ (forall i F,
         nth_error (fields RD) i = Some F ->
         exists c,
           nth_error (subFields (analyzeRecord sort Ctx RD))
                     ((if hasOwnVFPtr (getASTRecordLayout Ctx RD)
                       then 1 else 0)
                      + List.length (filter (fun B => negb (isVirtual B))
                                            (bases RD))
                      + i) = Some c
           /\ name c = getNameAsString F
           /\ match getAsCXXRecordDecl (getType F) with
              | Some R =>
                  isValid c = isValid (analyzeRecord sort Ctx R)
                  /\ subFields c = subFields (analyzeRecord sort Ctx R)
              | None =>
                  isValid c = negb (fieldIsInvalidDecl F)
                  /\ subFields c = []
              end)
  /\ (forall n, In n (nodes (analyzeRecord sort Ctx RD)) ->
                validityExplained sort Ctx RD n).
Proof.
  pose proof (analyzeRecord_invariant sort sort_ok Ctx RD) as Hinv.
  assert (Hn : forall n, In n (nodes (analyzeRecord sort Ctx RD)) ->
                         isValid n = subtreeValid n).
  { intros n Hn. rewrite Forall_forall in Hinv. apply (inv_valid _ (Hinv n Hn)). }
  split; [now apply analyzeRecord_isValid|].
  split.
  { rewrite (analyzeRecord_isValid sort sort_ok) at 1. f_equal.
    symmetry. apply forallb_subtreeValid. apply Forall_forall.
    intros c Hc. apply Forall_forall. intros n Hn'.
    rewrite Forall_forall in Hinv. apply Hinv.
    now apply (nodes_child _ c). }
  split; [exact Hn|].
  rewrite (filter_isNVBase_children sort sort_ok).
  split; [now apply sorted_bases_perm|].
  split.
  { rewrite <- (Permutation_length (sorted_bases_perm sort sort_ok _)).
    apply baseNodes_length. }
  split; [apply analyzeRecord_declValid|].
  split.
  { eapply Permutation_trans;
      [|apply Permutation_map, (sorted_bases_perm sort sort_ok)].
    unfold baseNodes. rewrite map_map. apply Permutation_refl. }
  split.
  - intros i F HF. rewrite (field_child_at sort sort_ok), HF. simpl.
    eexists. split; [reflexivity|].
    split; [apply fieldNode_name|].
    unfold fieldNode.
    destruct (getAsCXXRecordDecl (getType F)); simpl; now split.
  - intros n. now apply nodes_explained.
Qed.

(** C3 (amended).  The record owns its vptr exactly when the first child of
    its node is of kind [VPtr]; that child is at offset 0, its size is the
    pointer width of the target and its alignment the pointer alignment of
    the target, both in characters. *)
Theorem own_vfptr_iff_first_child_vptr
        (sort : SortFn) (sort_ok : SortContract sort)
        (Ctx : ASTContext) (RD : CXXRecordDecl) :
  hasOwnVFPtr (getASTRecordLayout Ctx RD) = true <->
  exists c rest,
    subFields (analyzeRecord sort Ctx RD) = c :: rest
    /\ fieldType c = VPtr
    /\ offset c = 0
    /\ size c = toCharUnitsFromBits Ctx (getPointerWidth Ctx)
    /\ align c = toCharUnitsFromBits Ctx (getPointerAlign Ctx).
Proof.
  split.
  - intros Hown. rewrite children_eq, Hown. simpl.
    eexists. eexists. split; [reflexivity|]. repeat split.
  - intros (c & rest & Hc & Hk & _).
    destruct (hasOwnVFPtr (getASTRecordLayout Ctx RD)) eqn:Hown;
      [reflexivity|exfalso].
    pose proof (no_vptr_without_own_vfptr sort sort_ok Ctx RD Hown) as Hno.
    rewrite Hc in Hno. apply Forall_inv in Hno. contradiction.
Qed.

(** C10.  Every node of kind [VPtr] in an analysed tree is valid, unnamed,
    of type vptr, at offset 0 and without children, also below a record
    whose declaration is invalid; the AND over its subtree is true. *)
Theorem vptr_node_is_valid
        (sort : SortFn) (sort_ok : SortContract sort)
        (Ctx : ASTContext) (RD : CXXRecordDecl) (n : FieldInfo) :
  In n (nodes (analyzeRecord sort Ctx RD)) ->
  fieldType n = VPtr ->
  isValid n = true /\ name n = EmptyString /\ type n = "vptr"
  /\ offset n = 0 /\ subtreeValid n = true.
Proof.
  intros Hn Hk.
  pose proof (analyzeRecord_invariant sort sort_ok Ctx RD) as Hinv.
  rewrite Forall_forall in Hinv. specialize (Hinv n Hn).
  destruct (inv_vptr _ Hinv Hk) as (Hv & Hname & Hty & Ho & _).
  repeat split; trivial.
  now rewrite <- (inv_valid _ Hinv).
Qed.

(** ** Text *)

Lemma string_app_assoc (a b c : string) : (a ++ b) ++ c = a ++ (b ++ c).
Proof. induction a as [|x a IH]; simpl; [reflexivity|now rewrite IH]. Qed.

Lemma string_app_nil_r (a : string) : a ++ EmptyString = a.
Proof. induction a as [|x a IH]; simpl; [reflexivity|now rewrite IH]. Qed.

Lemma concat_nosep_cons (x : string) l :
  String.concat EmptyString (x :: l) = x ++ String.concat EmptyString l.
Proof.
  destruct l as [|y l]; simpl; [now rewrite string_app_nil_r|reflexivity].
Qed.

Lemma occursIn_refl x : occursIn x x.
Proof.
  exists EmptyString, EmptyString. simpl. now rewrite string_app_nil_r.
Qed.

Lemma occursIn_app_l x a b : occursIn x b -> occursIn x (a ++ b).
Proof.
  intros (pre & post & ->). exists (a ++ pre), post.
  now rewrite string_app_assoc.
Qed.

Lemma occursIn_app_r x a b : occursIn x a -> occursIn x (a ++ b).
Proof.
  intros (pre & post & ->). exists pre, (post ++ b).
  now rewrite !string_app_assoc.
Qed.

Lemma occursIn_trans x y z : occursIn x y -> occursIn y z -> occursIn x z.
Proof.
  intros Hxy (pre & post & ->).
  apply occursIn_app_l, occursIn_app_r, Hxy.
Qed.

(** ** writeEscaped *)

Lemma writeEscapedChar_spec c : writeEscapedChar c = escapeByteSpec c.
Proof.
  destruct c as [[] [] [] [] [] [] [] []]; vm_compute; reflexivity.
Qed.

(** C5.  [writeEscaped] applies the escaping rule byte by byte: the
    two-character escapes for the double quote, the backslash, backspace,
    form feed, newline, carriage return and tab; a backslash, the letter u
    and four hexadecimal digits for every other byte below 0x20; every
    other byte unchanged. *)
Theorem writeEscaped_follows_escaping_rule (S : string) :
  writeEscaped S = escapeSpec S.
Proof.
  unfold escapeSpec. induction S as [|c S IH]; [reflexivity|].
  cbn [writeEscaped list_ascii_of_string map].
  rewrite concat_nosep_cons, IH, writeEscapedChar_spec. reflexivity.
Qed.

(** ** The entry points that do not analyse *)

(** C7.  For an identity without an entry in the store,
    [getLayoutForRecord] returns the text of the empty object and leaves the
    session state as it was. *)
Theorem getLayoutForRecord_unknown_id (id : Z) (Ctx : LayoutContext) :
  StdMap.find id (records Ctx) = None ->
  getLayoutForRecord id Ctx = ("{}", Ctx).
Proof.
  intros Hmiss. unfold getLayoutForRecord. rewrite Hmiss. reflexivity.
Qed.

(** C8.  [cleanup] empties the store and the cached listing and keeps the
    argument string, from every state. *)
Theorem cleanup_clears_store_keeps_args (Ctx : LayoutContext) :
  records (cleanup Ctx) = StdMap.empty
  /\ recordList (cleanup Ctx) = EmptyString
  /\ args (cleanup Ctx) = args Ctx
  /\ forall id, StdMap.find id (records (cleanup Ctx)) = None.
Proof. repeat split. Qed.

(** ** getRecordList *)

Lemma getRecordList_loop_rest rs RecordList :
  getRecordList_loop rs false RecordList
  = RecordList
      ++ String.concat EmptyString (map (fun R => "," ++ renderEntry R) rs).
Proof.
  revert RecordList. induction rs as [|R rs IH]; intros RecordList.
  - simpl. now rewrite string_app_nil_r.
  - cbn [getRecordList_loop negb map]. rewrite IH, concat_nosep_cons.
    unfold renderEntry. rewrite !string_app_assoc. reflexivity.
Qed.

Lemma concat_comma l :
  String.concat EmptyString (map (fun R => "," ++ renderEntry R) l)
  = match l with
    | [] => EmptyString
    | _ => "," ++ String.concat "," (map renderEntry l)
    end.
Proof.
  induction l as [|R l IH]; [reflexivity|].
  cbn [map]. rewrite concat_nosep_cons, IH.
  destruct l as [|R' l]; [now rewrite string_app_nil_r|].
  cbn [map String.concat]. rewrite !string_app_assoc. reflexivity.
Qed.

Lemma getRecordList_loop_first rs RecordList :
  getRecordList_loop rs true RecordList
  = RecordList ++ String.concat "," (map renderEntry rs).
Proof.
  destruct rs as [|R rs]; [simpl; now rewrite string_app_nil_r|].
  cbn [getRecordList_loop negb map]. rewrite getRecordList_loop_rest.
  rewrite concat_comma. unfold renderEntry.
  destruct rs as [|R' rs]; cbn [map String.concat];
    rewrite !string_app_assoc; rewrite ?string_app_nil_r; reflexivity.
Qed.

Lemma getRecordList_spec (Ctx : LayoutContext) :
  getRecordList Ctx
  = (renderListing (records Ctx),
     mkLayoutContext (args Ctx) (renderListing (records Ctx)) (records Ctx)).
Proof.
  unfold getRecordList, dupJson, renderListing.
  rewrite getRecordList_loop_first. rewrite !string_app_assoc. reflexivity.
Qed.

(** ** The ordered map *)

Lemma assign_keys_In k v m x :
  In x (StdMap.keys (StdMap.assign k v m)) -> x = k \/ In x (StdMap.keys m).
Proof.
  unfold StdMap.keys. induction m as [|[k' v'] m IH]; simpl.
  - intros [<-|[]]. now left.
  - destruct (k <? k'); [|destruct (k =? k')]; simpl.
    + intros [<-|[<-|H]]; auto.
    + intros [<-|H]; auto.
    + intros [<-|H]; auto. destruct (IH H); auto.
Qed.

Lemma assign_ordered k v m :
  StdMap.ordered m -> StdMap.ordered (StdMap.assign k v m).
Proof.
  unfold StdMap.ordered.
  induction m as [|[k' v'] m IH]; simpl; intros Hm.
  - repeat constructor.
  - apply StronglySorted_inv in Hm as [Hm Hk'].
    destruct (k <? k') eqn:Hlt; [|destruct (k =? k') eqn:Heq]; simpl.
    + apply Z.ltb_lt in Hlt. constructor; [now constructor|].
      constructor; [exact Hlt|].
      eapply Forall_impl; [|exact Hk']. simpl. intros; lia.
    + apply Z.eqb_eq in Heq. subst k'. now constructor.
    + apply Z.ltb_ge in Hlt. apply Z.eqb_neq in Heq.
      constructor; [now apply IH|].
      apply Forall_forall. intros x Hx.
      destruct (assign_keys_In k v m x Hx) as [->|Hx']; [lia|].
      rewrite Forall_forall in Hk'. now apply Hk'.
Qed.

Lemma assign_Forall (P : Z * FieldInfo -> Prop) k v m :
  P (k, v) -> Forall P m -> Forall P (StdMap.assign k v m).
Proof.
  intros Hkv. induction m as [|[k' v'] m IH]; simpl; intros Hm.
  - now constructor.
  - inversion Hm as [|? ? Hhd Htl]; subst.
    destruct (k <? k'); [|destruct (k =? k')]; constructor; auto.
Qed.

Lemma find_In k m v : StdMap.find k m = Some v -> In (k, v) m.
Proof.
  induction m as [|[k' v'] m IH]; simpl; [discriminate|].
  destruct (k =? k') eqn:Heq.
  - apply Z.eqb_eq in Heq. intros [= ->]. left. now subst.
  - intros H. right. now apply IH.
Qed.

(** ** States a host can reach *)

Section Reach.
Variable sort : SortFn.
Variable frontEnd : FrontEnd.

Lemma Visit_invariant Ctx RD LCtx :
  StoreInvariant sort (records LCtx) ->
  StoreInvariant sort (records (VisitCXXRecordDecl sort Ctx RD LCtx)).
Proof.
  intros [Hord Hall]. unfold VisitCXXRecordDecl.
  destruct RD as [RD|]; [|now split].
  destruct (negb (isCompleteDefinition RD)); [now split|].
  destruct (StdMap.find (getID RD) (records LCtx)); [now split|].
  simpl. split.
  - now apply assign_ordered.
  - apply assign_Forall; [|exact Hall]. simpl. now exists Ctx, RD.
Qed.

Lemma HandleTranslationUnit_invariant TU LCtx :
  StoreInvariant sort (records LCtx) ->
  StoreInvariant sort (records (HandleTranslationUnit sort TU LCtx)).
Proof.
  unfold HandleTranslationUnit. revert LCtx.
  induction (tuRecordDecls TU) as [|RD l IH]; intros LCtx H; simpl.
  - exact H.
  - apply IH. now apply Visit_invariant.
Qed.

Lemma empty_invariant : StoreInvariant sort StdMap.empty.
Proof. split; constructor. Qed.

Lemma call_invariant c Ctx :
  StoreInvariant sort (records Ctx) ->
  StoreInvariant sort (records (snd (call sort frontEnd c Ctx))).
Proof.
  intros H. destruct c as [| |source|id|newArgs]; simpl.
  - apply empty_invariant.
  - exact H.
  - unfold analyzeSource. simpl.
    destruct (frontEnd source _) as [TU|]; simpl.
    + apply HandleTranslationUnit_invariant. apply empty_invariant.
    + apply empty_invariant.
  - unfold getLayoutForRecord.
    destruct (StdMap.find id (records Ctx)); exact H.
  - unfold setArgs. destruct newArgs as [s|]; [destruct (negb (emptyb s))|];
      exact H.
Qed.

Lemma run_invariant cs Ctx :
  StoreInvariant sort (records Ctx) ->
  StoreInvariant sort (records (run sort frontEnd cs Ctx)).
Proof.
  unfold run. revert Ctx. induction cs as [|c cs IH]; intros Ctx H; simpl.
  - exact H.
  - apply IH. now apply call_invariant.
Qed.

Lemma Reachable_invariant Ctx :
  Reachable sort frontEnd Ctx -> StoreInvariant sort (records Ctx).
Proof.
  intros [cs ->]. apply run_invariant. apply empty_invariant.
Qed.

(** Without a call of [analyzeSource] an empty store stays empty. *)
Lemma call_keeps_empty c Ctx :
  isAnalyze c = false -> records Ctx = StdMap.empty ->
  records (snd (call sort frontEnd c Ctx)) = StdMap.empty.
Proof.
  intros Hc He. destruct c as [| |source|id|newArgs]; simpl;
    try discriminate; trivial.
  - unfold getLayoutForRecord.
    destruct (StdMap.find id (records Ctx)); exact He.
  - unfold setArgs. destruct newArgs as [s|]; [destruct (negb (emptyb s))|];
      exact He.
Qed.

Lemma run_keeps_empty cs Ctx :
  forallb (fun c => negb (isAnalyze c)) cs = true ->
  records Ctx = StdMap.empty ->
  records (run sort frontEnd cs Ctx) = StdMap.empty.
Proof.
  unfold run. revert Ctx.
  induction cs as [|c cs IH]; intros Ctx Hcs He; simpl; [exact He|].
  simpl in Hcs. apply andb_true_iff in Hcs as [Hc Hcs].
  apply IH; [exact Hcs|]. apply call_keeps_empty; [|exact He].
  now destruct (isAnalyze c).
Qed.
End Reach.

(** ** The listing *)

Lemma concat_occursIn sep x l : In x l -> occursIn x (String.concat sep l).
Proof.
  induction l as [|y l IH]; [intros []|].
  intros [->|Hx].
  - destruct l; [apply occursIn_refl|].
    cbn [String.concat]. apply occursIn_app_r, occursIn_refl.
  - destruct l as [|z l]; [destruct Hx|].
    cbn [String.concat] in *. now apply occursIn_app_l, occursIn_app_l, IH.
Qed.

Lemma allDigits_string_of_uint d :
  allDigits (NilEmpty.string_of_uint d) = true.
Proof. induction d; simpl; trivial. Qed.

Lemma printUnsigned_digits z :
  allDigits (printUnsigned z) = true /\ printUnsigned z <> EmptyString.
Proof.
  unfold printUnsigned. destruct (N.to_uint (Z.to_N z)) eqn:E; split;
    try discriminate; try reflexivity;
    rewrite <- E;
    (destruct (N.to_uint (Z.to_N z)); [reflexivity|..];
     apply (allDigits_string_of_uint (_ _))).
Qed.

Lemma printUnsigned_parses z :
  option_map N.of_uint (NilZero.uint_of_string (printUnsigned z))
  = Some (Z.to_N z).
Proof.
  unfold printUnsigned. rewrite NilZero.usu.
  - simpl. now rewrite DecimalN.Unsigned.of_to.
  - destruct (Z.to_N z); [discriminate|].
    apply DecimalPos.Unsigned.to_uint_nonnil.
Qed.

(** C6.  In every state a host can reach, [getRecordList] returns the
    entries of the store between brackets, separated by commas, in the order
    of the store, whose identities ascend strictly; for an empty store the
    text is the empty array, and so it is after [cleanup] followed by any
    calls other than [analyzeSource]. *)
Theorem getRecordList_ascending_and_empty
        (sort : SortFn) (frontEnd : FrontEnd) (Ctx : LayoutContext) :
  Reachable sort frontEnd Ctx ->
  fst (getRecordList Ctx)
  = "[" ++ String.concat "," (map renderEntry (records Ctx)) ++ "]"
  /\ StronglySorted Z.lt (map fst (records Ctx))
  /\ (records Ctx = [] -> fst (getRecordList Ctx) = "[]")
  /\ forall cs,
      forallb (fun c => negb (isAnalyze c)) cs = true ->
      fst (getRecordList (run sort frontEnd cs (cleanup Ctx))) = "[]".
Proof.
  intros Hreach. rewrite getRecordList_spec. cbn [fst].
  split; [reflexivity|].
  split; [apply (Reachable_invariant sort frontEnd Ctx Hreach)|].
  split.
  - intros ->. reflexivity.
  - intros cs Hcs. rewrite getRecordList_spec. cbn [fst].
    now rewrite (run_keeps_empty sort frontEnd cs (cleanup Ctx) Hcs).
Qed.

(** C9.  Each entry of the listing carries its identity under the key id as
    a string in double quotes that consists of decimal digits: the digits of
    the identity converted to an unsigned 64-bit number. *)
Theorem listing_id_is_quoted_decimal (Ctx : LayoutContext) (R : Z * FieldInfo) :
  In R (records Ctx) ->
  occursIn (renderEntry R) (fst (getRecordList Ctx))
  /\ (exists rest,
        renderEntry R
        = "{" ++ DQ ++ "id" ++ DQ ++ ":" ++ DQ ++ utostr (fst R) ++ DQ ++ rest)
  /\ allDigits (utostr (fst R)) = true
  /\ utostr (fst R) <> EmptyString
  /\ option_map N.of_uint (NilZero.uint_of_string (utostr (fst R)))
     = Some (Z.to_N (wrap64 (fst R))).
Proof.
  intros HR. rewrite getRecordList_spec. simpl. split.
  - unfold renderListing.
    apply occursIn_app_l, occursIn_app_r, concat_occursIn.
    now apply in_map.
  - split; [eexists; reflexivity|].
    split; [apply printUnsigned_digits|].
    split; [apply printUnsigned_digits|apply printUnsigned_parses].
Qed.

(** ** The rendering of one node *)

Lemma writeField_eq F Depth :
  writeField F Depth =
  "{"
  ++ (DQ ++ "fieldType" ++ DQ ++ ":" ++ DQ)
  ++ fieldTypeToString (fieldType F) ++ DQ
  ++ (if negb (emptyb (name F))
      then "," ++ (DQ ++ "name" ++ DQ ++ ":" ++ DQ)
               ++ writeEscaped (name F) ++ DQ
      else EmptyString)
  ++ ","
  ++ (DQ ++ "type" ++ DQ ++ ":" ++ DQ) ++ writeEscaped (type F) ++ DQ
  ++ ","
  ++ (DQ ++ "size" ++ DQ ++ ":") ++ printSigned (size F)
  ++ ","
  ++ (DQ ++ "align" ++ DQ ++ ":") ++ printSigned (align F)
  ++ ","
  ++ (DQ ++ "offset" ++ DQ ++ ":") ++ printUnsigned (Z.shiftr (offset F) 3)
  ++ (if FieldType_eqb (fieldType F) BitField
      then "," ++ (DQ ++ "bitWidth" ++ DQ ++ ":")
               ++ printUnsigned (bitWidth F)
      else EmptyString)
  ++ (if FieldType_eqb (fieldType F) Record_
         || FieldType_eqb (fieldType F) NVBase
      then "," ++ (DQ ++ "subFields" ++ DQ ++ ": [")
               ++ subFieldsLoop writeField Depth (subFields F) true
               ++ "]"
      else EmptyString)
  ++ "}".
Proof. destruct F. reflexivity. Qed.

Lemma shiftr3_quot8 z : 0 <= z -> Z.shiftr z 3 = Z.quot z 8.
Proof.
  intros Hz. rewrite Z.shiftr_div_pow2 by lia.
  symmetry. apply Z.quot_div_nonneg; lia.
Qed.

Lemma writeField_offset_text F Depth :
  0 <= offset F ->
  exists head tail,
    writeField F Depth
    = head ++ "," ++ (DQ ++ "align" ++ DQ ++ ":") ++ printSigned (align F)
           ++ "," ++ (DQ ++ "offset" ++ DQ ++ ":")
           ++ printUnsigned (Z.quot (offset F) 8) ++ tail
    /\ (tail = "}" \/ exists t, tail = "," ++ t).
Proof.
  intros Ho. rewrite writeField_eq, (shiftr3_quot8 _ Ho).
  eexists ("{" ++ (DQ ++ "fieldType" ++ DQ ++ ":" ++ DQ)
               ++ fieldTypeToString (fieldType F) ++ DQ
               ++ (if negb (emptyb (name F))
                   then "," ++ (DQ ++ "name" ++ DQ ++ ":" ++ DQ)
                            ++ writeEscaped (name F) ++ DQ
                   else EmptyString)
               ++ ","
               ++ (DQ ++ "type" ++ DQ ++ ":" ++ DQ)
               ++ writeEscaped (type F) ++ DQ
               ++ ","
               ++ (DQ ++ "size" ++ DQ ++ ":") ++ printSigned (size F)).
  eexists. split.
  - rewrite !string_app_assoc. reflexivity.
  - destruct (FieldType_eqb (fieldType F) BitField).
    + right. eexists. cbn [append]. reflexivity.
    + destruct (FieldType_eqb (fieldType F) Record_
                || FieldType_eqb (fieldType F) NVBase).
      * right. eexists. cbn [append]. reflexivity.
      * left. reflexivity.
Qed.

Lemma subFieldsLoop_occurs wf Depth l first c :
  In c l ->
  occursIn (wf c (wrap32 (Depth + 4))) (subFieldsLoop wf Depth l first).
Proof.
  revert first. induction l as [|SF l IH]; intros first; [intros []|].
  intros [->|Hc]; cbn [subFieldsLoop].
  - apply occursIn_app_l, occursIn_app_r, occursIn_refl.
  - now apply occursIn_app_l, occursIn_app_l, IH.
Qed.

Lemma writeField_occurs Root :
  Forall NodeInvariant (nodes Root) ->
  forall F, In F (nodes Root) ->
  forall Depth, exists Depth',
      occursIn (writeField F Depth') (writeField Root Depth).
Proof.
  induction Root as [Root IH] using FieldInfo_induction.
  intros Hinv F HF Depth. rewrite nodes_eq in HF, Hinv.
  destruct HF as [<-|HF]; [exists Depth; apply occursIn_refl|].
  apply in_flat_map in HF as (c & Hc & HF).
  inversion Hinv as [|? ? Hroot Hrest]; subst.
  assert (Hcinv : Forall NodeInvariant (nodes c)).
  { apply Forall_forall. intros n Hn. rewrite Forall_forall in Hrest.
    apply Hrest. apply in_flat_map. now exists c. }
  rewrite Forall_forall in IH.
  destruct (IH c Hc Hcinv F HF (wrap32 (Depth + 4))) as [D' HD'].
  exists D'. eapply occursIn_trans; [exact HD'|].
  rewrite (writeField_eq Root).
  assert (Hk : FieldType_eqb (fieldType Root) Record_
               || FieldType_eqb (fieldType Root) NVBase = true).
  { destruct (inv_leaf _ Hroot) as [-> | ->]; [|reflexivity..].
    intros E. rewrite E in Hc. destruct Hc. }
  rewrite Hk.
  do 19 apply occursIn_app_l.
  apply occursIn_app_r.
  do 2 apply occursIn_app_l.
  apply occursIn_app_r.
  now apply subFieldsLoop_occurs.
Qed.

(** C4.  For every node of a tree in the store of a reachable state, the
    stored bit offset is a non-negative 64-bit number, the text of the node
    is part of what [getLayoutForRecord] returns, and in that text the
    key offset, which follows the key align, is followed by the decimal
    digits of the bit offset divided by 8 with rounding toward zero. *)
Theorem rendered_offset_is_bit_offset_quot_8
        (sort : SortFn) (sort_ok : SortContract sort) (frontEnd : FrontEnd)
        (Ctx : LayoutContext) (id : Z) (Root F : FieldInfo) :
  Reachable sort frontEnd Ctx ->
  StdMap.find id (records Ctx) = Some Root ->
  In F (nodes Root) ->
  0 <= offset F < 2 ^ 64
  /\ (exists Depth,
        occursIn (writeField F Depth) (fst (getLayoutForRecord id Ctx)))
  /\ forall Depth,
      exists head tail,
        writeField F Depth
        = head ++ "," ++ (DQ ++ "align" ++ DQ ++ ":") ++ printSigned (align F)
               ++ "," ++ (DQ ++ "offset" ++ DQ ++ ":")
               ++ printUnsigned (Z.quot (offset F) 8) ++ tail
        /\ (tail = "}" \/ exists t, tail = "," ++ t).
Proof.
  intros Hreach Hfind HF.
  destruct (Reachable_invariant sort frontEnd Ctx Hreach) as [_ Hall].
  rewrite Forall_forall in Hall.
  destruct (Hall _ (find_In _ _ _ Hfind)) as (C & RD & HRoot).
  simpl in HRoot.
  pose proof (analyzeRecord_invariant sort sort_ok C RD) as Hinv.
  rewrite <- HRoot in Hinv.
  assert (HFinv : NodeInvariant F).
  { rewrite Forall_forall in Hinv. now apply Hinv. }
  split; [apply (inv_offset _ HFinv)|].
  split.
  - unfold getLayoutForRecord, dupJson. rewrite Hfind. cbn [fst].
    apply (writeField_occurs Root Hinv F HF 0).
  - intros Depth. apply writeField_offset_text. apply (inv_offset _ HFinv).
Qed.

(** ** Insertion sort meets the contract *)

Section InsertionSortCorrect.
Context {A : Type} (lt : A -> A -> bool).

Lemma insert_sorted_perm x l : Permutation (x :: l) (insert_sorted lt x l).
Proof.
  induction l as [|y l IH]; simpl; [reflexivity|].
  destruct (lt y x); [|reflexivity].
  rewrite perm_swap. now constructor.
Qed.

Lemma insertion_sort_perm l : Permutation l (insertion_sort lt l).
Proof.
  induction l as [|x l IH]; simpl; [constructor|].
  rewrite <- insert_sorted_perm. now constructor.
Qed.

Hypothesis SWO : StrictWeakOrder lt.

Lemma swo_not_lt_trans a b c :
  lt b a = false -> lt c b = false -> lt c a = false.
Proof.
  intros Hba Hcb.
  destruct (lt c a) eqn:Hca; [exfalso|reflexivity].
  destruct (lt a b) eqn:Hab.
  - rewrite (swo_trans lt SWO c a b Hca Hab) in Hcb. discriminate.
  - destruct (lt b c) eqn:Hbc.
    + rewrite (swo_trans lt SWO b c a Hbc Hca) in Hba. discriminate.
    + destruct (swo_incomp lt SWO a b c Hab Hba Hbc Hcb) as [_ H].
      congruence.
Qed.

Lemma insert_sorted_sorted x l :
  StronglySorted (fun a b => lt b a = false) l ->
  StronglySorted (fun a b => lt b a = false) (insert_sorted lt x l).
Proof.
  induction 1 as [|y l Hs IH Hy]; simpl.
  - repeat constructor.
  - destruct (lt y x) eqn:Hyx.
    + constructor; [exact IH|].
      apply (Permutation_Forall (insert_sorted_perm x l)).
      constructor; [|exact Hy].
      destruct (lt x y) eqn:Hxy; [|reflexivity].
      pose proof (swo_trans lt SWO x y x Hxy Hyx) as Hxx.
      rewrite (swo_irrefl lt SWO x) in Hxx. discriminate.
    + constructor; [now constructor|].
      constructor; [exact Hyx|].
      rewrite Forall_forall in *. intros z Hz.
      exact (swo_not_lt_trans x y z Hyx (Hy z Hz)).
Qed.

Lemma insertion_sort_sorted l :
  StronglySorted (fun a b => lt b a = false) (insertion_sort lt l).
Proof.
  induction l as [|x l IH]; simpl; [constructor|].
  now apply insert_sorted_sorted.
Qed.
End InsertionSortCorrect.

Lemma insertion_sort_contract : SortContract insertion_sort_fn.
Proof.
  split; intros A lt l.
  - apply insertion_sort_perm.
  - intros H. now apply insertion_sort_sorted.
Qed.

(** ** The claims at the sample declarations *)

Import Samples.

(** C1 as stated fails: the empty bases [E2] and [E1] of [D] both sit at
    offset 0, so no sort makes the base nodes of [D] strictly ascending. *)
Lemma empty_bases_share_offset_zero :
  ~ exists sort : SortFn,
      SortContract sort
      /\ StronglySorted (fun a b => offset a < offset b)
           (filter isNVBase (subFields (analyzeRecord sort ctx64 declD))).
Proof.
  intros (sort & sort_ok & Hs).
  rewrite (filter_isNVBase_children sort sort_ok) in Hs.
  pose proof (sorted_bases_perm sort sort_ok
                (baseNodes (analyzeRecord sort ctx64)
                           (getASTRecordLayout ctx64 declD) (bases declD)))
    as Hp.
  assert (H0 : Forall (fun c => offset c = 0)
                      (baseNodes (analyzeRecord sort ctx64)
                                 (getASTRecordLayout ctx64 declD)
                                 (bases declD))).
  { repeat constructor. }
  apply (Permutation_Forall Hp) in H0.
  apply Permutation_length in Hp. simpl in Hp.
  destruct (sort FieldInfo offsetLess _) as [|a [|b l]]; try discriminate.
  apply StronglySorted_inv in Hs as [_ Hab]. apply Forall_inv in Hab.
  inversion H0 as [|? ? Ha Hb]; subst. apply Forall_inv in Hb. lia.
Qed.

(** C3 as stated fails: on a target with 16-bit pointers aligned to 8 bits
    the vptr node of [V] has alignment 1, not the pointer width 2. *)
Lemma vptr_align_differs_from_pointer_width :
  ~ exists sort : SortFn,
      hasOwnVFPtr (getASTRecordLayout ctxAVR declV) = true <->
      exists c rest,
        subFields (analyzeRecord sort ctxAVR declV) = c :: rest
        /\ fieldType c = VPtr
        /\ offset c = 0
        /\ size c = toCharUnitsFromBits ctxAVR (getPointerWidth ctxAVR)
        /\ align c = toCharUnitsFromBits ctxAVR (getPointerWidth ctxAVR).
Proof.
  intros (sort & Hown & _).
  destruct (Hown eq_refl) as (c & rest & Hc & _ & _ & _ & Ha).
  rewrite analyzeRecord_eq in Hc. simpl in Hc.
  injection Hc as <- _. vm_compute in Ha. discriminate.
Qed.

(** C1 at [struct P : A2, V]: the base [V], listed second, comes first. *)
Lemma children_of_P :
  SortContract insertion_sort_fn
  /\ exists Bases Fields : list FieldInfo,
      subFields (analyzeRecord insertion_sort_fn ctx64 declP)
      = ((if hasOwnVFPtr (getASTRecordLayout ctx64 declP)
          then [makeVPtrInfo ctx64] else []) ++ Bases ++ Fields)%list
      /\ Bases
         = filter isNVBase
                  (subFields (analyzeRecord insertion_sort_fn ctx64 declP))
      /\ Permutation
           (baseNodes (analyzeRecord insertion_sort_fn ctx64)
                      (getASTRecordLayout ctx64 declP) (bases declP))
           Bases
      /\ StronglySorted (fun a b => offset a <= offset b) Bases
      /\ List.length Fields = List.length (fields declP)
      /\ forall i Field,
          nth_error (fields declP) i = Some Field ->
          exists c,
            nth_error Fields i = Some c
            /\ c = fieldNode (analyzeRecord insertion_sort_fn ctx64) ctx64
                             (getASTRecordLayout ctx64 declP) (Z.of_nat i)
                             Field
            /\ name c = getNameAsString Field
            /\ offset c
               = wrap64 (getFieldOffset (getASTRecordLayout ctx64 declP)
                                        (Z.of_nat i)).
Proof.
  split.
  - exact insertion_sort_contract.
  - exact (children_are_vptr_sorted_bases_fields
             insertion_sort_fn insertion_sort_contract ctx64 declP).
Defined.

(** C2 at [P], whose base [A2] is invalid. *)
Lemma validity_of_P :
  SortContract insertion_sort_fn
  /\ (isValid (analyzeRecord insertion_sort_fn ctx64 declP)
      = negb (isInvalidDecl declP)
        && forallb isValid
             (subFields (analyzeRecord insertion_sort_fn ctx64 declP))
      /\ isValid (analyzeRecord insertion_sort_fn ctx64 declP)
         = negb (isInvalidDecl declP)
           && forallb subtreeValid
                (subFields (analyzeRecord insertion_sort_fn ctx64 declP))
      /\ (forall n,
             In n (nodes (analyzeRecord insertion_sort_fn ctx64 declP)) ->
             isValid n = subtreeValid n)
      /\ Permutation
           (baseNodes (analyzeRecord insertion_sort_fn ctx64)
                      (getASTRecordLayout ctx64 declP) (bases declP))
           (filter isNVBase
                   (subFields (analyzeRecord insertion_sort_fn ctx64 declP)))
      /\ List.length
           (filter isNVBase
                   (subFields (analyzeRecord insertion_sort_fn ctx64 declP)))
         = List.length (filter (fun B => negb (isVirtual B)) (bases declP))
      /\ isValid (analyzeRecord insertion_sort_fn ctx64 declP)
         = declValid declP
      /\ Permutation
           (map (fun B =>
                   (isValid (analyzeRecord insertion_sort_fn ctx64
                                           (baseDecl B)),
                    subFields (analyzeRecord insertion_sort_fn ctx64
                                             (baseDecl B))))
                (filter (fun B => negb (isVirtual B)) (bases declP)))
           (map (fun c => (isValid c, subFields c))
                (filter isNVBase
                        (subFields
                           (analyzeRecord insertion_sort_fn ctx64 declP))))
      /\ (forall i F,
             nth_error (fields declP) i = Some F ->
             exists c,
               nth_error
                 (subFields (analyzeRecord insertion_sort_fn ctx64 declP))
                 ((if hasOwnVFPtr (getASTRecordLayout ctx64 declP)
                   then 1 else 0)
                  + List.length (filter (fun B => negb (isVirtual B))
                                        (bases declP))
                  + i) = Some c
               /\ name c = getNameAsString F
               /\ match getAsCXXRecordDecl (getType F) with
                  | Some R =>
                      isValid c
                      = isValid (analyzeRecord insertion_sort_fn ctx64 R)
                      /\ subFields c
                         = subFields (analyzeRecord insertion_sort_fn ctx64 R)
                  | None =>
                      isValid c = negb (fieldIsInvalidDecl F)
                      /\ subFields c = []
                  end)
      /\ (forall n,
             In n (nodes (analyzeRecord insertion_sort_fn ctx64 declP)) ->
             validityExplained insertion_sort_fn ctx64 declP n)).
Proof.
  split.
  - exact insertion_sort_contract.
  - exact (isValid_is_and_over_descendants
             insertion_sort_fn insertion_sort_contract ctx64 declP).
Defined.

(** C3 at [V] on the 16-bit target. *)
Lemma vptr_of_V :
  SortContract insertion_sort_fn
  /\ (hasOwnVFPtr (getASTRecordLayout ctxAVR declV) = true <->
      exists c rest,
        subFields (analyzeRecord insertion_sort_fn ctxAVR declV) = c :: rest
        /\ fieldType c = VPtr
        /\ offset c = 0
        /\ size c = toCharUnitsFromBits ctxAVR (getPointerWidth ctxAVR)
        /\ align c = toCharUnitsFromBits ctxAVR (getPointerAlign ctxAVR)).
Proof.
  split.
  - exact insertion_sort_contract.
  - exact (own_vfptr_iff_first_child_vptr
             insertion_sort_fn insertion_sort_contract ctxAVR declV).
Defined.

(** C10 at [X], a polymorphic class whose declaration is invalid. *)
Lemma vptr_node_of_X :
  SortContract insertion_sort_fn
  /\ In (makeVPtrInfo ctx64)
        (nodes (analyzeRecord insertion_sort_fn ctx64 declX))
  /\ fieldType (makeVPtrInfo ctx64) = VPtr
  /\ isInvalidDecl declX = true
  /\ (isValid (makeVPtrInfo ctx64) = true
      /\ name (makeVPtrInfo ctx64) = EmptyString
      /\ type (makeVPtrInfo ctx64) = "vptr"
      /\ offset (makeVPtrInfo ctx64) = 0
      /\ subtreeValid (makeVPtrInfo ctx64) = true).
Proof.
  assert (Hin : In (makeVPtrInfo ctx64)
                   (nodes (analyzeRecord insertion_sort_fn ctx64 declX))).
  { vm_compute. right. left. reflexivity. }
  assert (Hk : fieldType (makeVPtrInfo ctx64) = VPtr)
    by (vm_compute; reflexivity).
  split; [exact insertion_sort_contract|].
  split; [exact Hin|].
  split; [exact Hk|].
  split; [vm_compute; reflexivity|].
  exact (vptr_node_is_valid insertion_sort_fn insertion_sort_contract
                            ctx64 declX (makeVPtrInfo ctx64) Hin Hk).
Defined.

Lemma analysed_reachable : Reachable insertion_sort_fn frontEnd analysed.
Proof. eexists. reflexivity. Qed.

(** C4 at the second bit-field of [C], which starts at bit 3 of byte 0. *)
Lemma offset_of_second_bit_field :
  SortContract insertion_sort_fn
  /\ Reachable insertion_sort_fn frontEnd analysed
  /\ StdMap.find 3 (records analysed) = Some rootC
  /\ In nodeCb (nodes rootC)
  /\ (0 <= offset nodeCb < 2 ^ 64
      /\ (exists Depth,
             occursIn (writeField nodeCb Depth)
                      (fst (getLayoutForRecord 3 analysed)))
      /\ forall Depth,
          exists head tail,
            writeField nodeCb Depth
            = head ++ "," ++ (DQ ++ "align" ++ DQ ++ ":")
                   ++ printSigned (align nodeCb)
                   ++ "," ++ (DQ ++ "offset" ++ DQ ++ ":")
                   ++ printUnsigned (Z.quot (offset nodeCb) 8) ++ tail
            /\ (tail = "}" \/ exists t, tail = "," ++ t)).
Proof.
  assert (Hfind : StdMap.find 3 (records analysed) = Some rootC)
    by (vm_compute; reflexivity).
  assert (Hin : In nodeCb (nodes rootC)).
  { vm_compute. right. right. left. reflexivity. }
  split; [exact insertion_sort_contract|].
  split; [exact analysed_reachable|].
  split; [exact Hfind|].
  split; [exact Hin|].
  exact (rendered_offset_is_bit_offset_quot_8
           insertion_sort_fn insertion_sort_contract frontEnd
           analysed 3 rootC nodeCb analysed_reachable Hfind Hin).
Defined.

(** C6 at the analysed sample program. *)
Lemma listing_of_analysed :
  Reachable insertion_sort_fn frontEnd analysed
  /\ (fst (getRecordList analysed)
      = "[" ++ String.concat "," (map renderEntry (records analysed)) ++ "]"
      /\ StronglySorted Z.lt (map fst (records analysed))
      /\ (records analysed = [] -> fst (getRecordList analysed) = "[]")
      /\ forall cs,
          forallb (fun c => negb (isAnalyze c)) cs = true ->
          fst (getRecordList
                 (run insertion_sort_fn frontEnd cs (cleanup analysed)))
          = "[]").
Proof.
  split.
  - exact analysed_reachable.
  - exact (getRecordList_ascending_and_empty
             insertion_sort_fn frontEnd analysed analysed_reachable).
Defined.

(** C7 at an identity the sample program does not declare. *)
Lemma layout_of_unknown_id :
  StdMap.find 42 (records analysed) = None
  /\ getLayoutForRecord 42 analysed = ("{}", analysed).
Proof.
  assert (Hmiss : StdMap.find 42 (records analysed) = None)
    by (vm_compute; reflexivity).
  split.
  - exact Hmiss.
  - exact (getLayoutForRecord_unknown_id 42 analysed Hmiss).
Defined.

(** C9 at the entry of [B]. *)
Lemma listing_entry_of_B :
  In (2, analyzeRecord insertion_sort_fn ctx64 declB) (records analysed)
  /\ (occursIn (renderEntry (2, analyzeRecord insertion_sort_fn ctx64 declB))
               (fst (getRecordList analysed))
      /\ (exists rest,
             renderEntry (2, analyzeRecord insertion_sort_fn ctx64 declB)
             = "{" ++ DQ ++ "id" ++ DQ ++ ":" ++ DQ
                   ++ utostr (fst (2, analyzeRecord insertion_sort_fn ctx64
                                                    declB))
                   ++ DQ ++ rest)
      /\ allDigits (utostr (fst (2, analyzeRecord insertion_sort_fn ctx64
                                                  declB))) = true
      /\ utostr (fst (2, analyzeRecord insertion_sort_fn ctx64 declB))
         <> EmptyString
      /\ option_map N.of_uint
           (NilZero.uint_of_string
              (utostr (fst (2, analyzeRecord insertion_sort_fn ctx64 declB))))
         = Some (Z.to_N (wrap64 (fst (2, analyzeRecord insertion_sort_fn ctx64
                                                       declB))))).
Proof.
  assert (Hin : In (2, analyzeRecord insertion_sort_fn ctx64 declB)
                   (records analysed)).
  { vm_compute. right. left. reflexivity. }
  split; [exact Hin|].
  exact (listing_id_is_quoted_decimal
           analysed (2, analyzeRecord insertion_sort_fn ctx64 declB) Hin).
Defined.


(** ** The scenarios of the specification, evaluated *)

Example layout_of_B :
  analyzeRecord insertion_sort_fn ctx64 declB
  = mkFieldInfo true Record_ EmptyString "B" 0 16 8 0
      [ mkFieldInfo true NVBase EmptyString "A" 0 8 4 0
          [ mkFieldInfo true Simple "x" "int" 0 4 4 0 [];
            mkFieldInfo true Simple "y" "char" 32 1 1 0 [] ];
        mkFieldInfo true Simple "z" "double" 64 8 8 0 [] ].
Proof. reflexivity. Qed.

Example bit_fields_of_C_share_byte_0 :
  map (fun n => (fieldType n, bitWidth n, offset n, Z.shiftr (offset n) 3))
      (subFields rootC)
  = [(BitField, 3, 0, 0); (BitField, 5, 3, 0)].
Proof. reflexivity. Qed.

Example bases_of_P_in_memory_order :
  map (fun n => (type n, offset n, isValid n))
      (subFields (analyzeRecord insertion_sort_fn ctx64 declP))
  = [("V", 0, true); ("A2", 64, false)]
  /\ isValid (analyzeRecord insertion_sort_fn ctx64 declP) = false.
Proof. split; reflexivity. Qed.

Example escaped_control_bytes :
  writeEscaped (String "010"%char (String "031"%char ("a" ++ DQ ++ BSL)))
  = BSL ++ "n" ++ BSL ++ "u001F" ++ "a" ++ BSL ++ DQ ++ BSL ++ BSL.
Proof. reflexivity. Qed.

Example listing_of_sample_ids :
  map (fun R => utostr (fst R)) (records analysed) = ["1"; "2"; "3"]
  /\ fst (getRecordList initialContext) = "[]"
  /\ utostr (-1) = "18446744073709551615".
Proof. repeat split. Qed.

(** * Further properties *)

(** ** splitArgs *)

Lemma allBytes_app p a b : allBytes p (a ++ b) = allBytes p a && allBytes p b.
Proof.
  induction a as [|c a IH]; simpl; [reflexivity|].
  now rewrite IH, andb_assoc.
Qed.

Lemma concat_nosep_app l1 l2 :
  String.concat EmptyString (l1 ++ l2)
  = String.concat EmptyString l1 ++ String.concat EmptyString l2.
Proof.
  induction l1 as [|x l1 IH]; [reflexivity|].
  rewrite <- app_comm_cons, !concat_nosep_cons, IH.
  now rewrite string_app_assoc.
Qed.

Lemma splitArgs_loop_tokens Args Current Result :
  Forall (fun t => isToken t = true) Result ->
  allBytes (fun c => negb (isSpace c)) Current = true ->
  Forall (fun t => isToken t = true) (snd (splitArgs_loop Args Current Result))
  /\ allBytes (fun c => negb (isSpace c))
              (fst (splitArgs_loop Args Current Result)) = true.
Proof.
  revert Current Result.
  induction Args as [|C Args IH]; intros Current Result HR HC; simpl.
  - now split.
  - fold (isSpace C). destruct (isSpace C) eqn:HS.
    + destruct (emptyb Current) eqn:HE; simpl.
      * now apply IH.
      * apply IH; [|reflexivity].
        apply Forall_app; split; [exact HR|].
        constructor; [|constructor]. unfold isToken. now rewrite HE, HC.
    + apply IH; [exact HR|].
      rewrite allBytes_app, HC. simpl. now rewrite HS.
Qed.

Lemma splitArgs_loop_chars Args Current Result :
  String.concat EmptyString (snd (splitArgs_loop Args Current Result))
  ++ fst (splitArgs_loop Args Current Result)
  = String.concat EmptyString Result ++ Current ++ removeSpaces Args.
Proof.
  revert Current Result.
  induction Args as [|C Args IH]; intros Current Result; simpl.
  - now rewrite string_app_nil_r.
  - fold (isSpace C). destruct (isSpace C) eqn:HS.
    + destruct (emptyb Current) eqn:HE; simpl.
      * apply IH.
      * rewrite IH, concat_nosep_app. simpl.
        now rewrite string_app_assoc.
    + rewrite IH. now rewrite !string_app_assoc.
Qed.

Lemma splitArgs_loop_word t rest Current Result :
  allBytes (fun c => negb (isSpace c)) t = true ->
  splitArgs_loop (t ++ rest) Current Result
  = splitArgs_loop rest (Current ++ t) Result.
Proof.
  revert Current. induction t as [|c t IH]; intros Current Ht; simpl.
  - now rewrite string_app_nil_r.
  - simpl in Ht. apply andb_true_iff in Ht as [Hc Ht].
    fold (isSpace c). destruct (isSpace c); [discriminate|].
    rewrite IH by exact Ht. now rewrite string_app_assoc.
Qed.

Lemma isToken_inv t :
  isToken t = true ->
  emptyb t = false /\ allBytes (fun c => negb (isSpace c)) t = true.
Proof.
  unfold isToken. intros H. apply andb_true_iff in H as [H1 H2].
  split; [now destruct (emptyb t)|exact H2].
Qed.

Lemma splitArgs_loop_join toks Result :
  Forall (fun t => isToken t = true) toks ->
  (let '(Current, Result') :=
     splitArgs_loop (String.concat " " toks) EmptyString Result in
   if negb (emptyb Current) then Result' ++ [Current] else Result')%list
  = (Result ++ toks)%list.
Proof.
  revert Result. induction toks as [|t toks IH]; intros Result Hall.
  - simpl. now rewrite app_nil_r.
  - inversion Hall as [|? ? Ht Hrest]; subst.
    destruct (isToken_inv t Ht) as [Hne Hns].
    destruct toks as [|t2 toks].
    + cbn [String.concat].
      rewrite <- (string_app_nil_r t) at 1.
      rewrite splitArgs_loop_word by exact Hns. simpl. now rewrite Hne.
    + cbn [String.concat] in *.
      rewrite splitArgs_loop_word by exact Hns.
      cbn [append splitArgs_loop]. simpl (Ascii.eqb " " " ").
      cbn [append]. rewrite Hne. cbn [negb].
      rewrite IH by exact Hrest. now rewrite <- app_assoc.
Qed.

(** X1.  Every argument [splitArgs] returns is non-empty and free of
    spaces: runs of spaces, leading and trailing spaces yield no empty
    argument. *)
Theorem splitArgs_yields_tokens (Args : string) :
  Forall (fun t => t <> EmptyString
                   /\ allBytes (fun c => negb (isSpace c)) t = true)
         (splitArgs Args).
Proof.
  unfold splitArgs.
  destruct (splitArgs_loop_tokens Args EmptyString [] (Forall_nil _) eq_refl)
    as [HR HC].
  destruct (splitArgs_loop Args EmptyString []) as [Current Result].
  simpl in HR, HC.
  assert (Hconv : forall l, Forall (fun t => isToken t = true) l ->
                            Forall (fun t => t <> EmptyString
                                             /\ allBytes (fun c => negb (isSpace c)) t = true) l).
  { intros l. apply Forall_impl. intros t Ht.
    destruct (isToken_inv t Ht) as [Hne Hns]. split; [|exact Hns].
    intros ->. discriminate. }
  apply Hconv.
  destruct (emptyb Current) eqn:HE; simpl; [exact HR|].
  apply Forall_app; split; [exact HR|].
  constructor; [|constructor]. unfold isToken. now rewrite HE, HC.
Qed.

(** X2.  [splitArgs] only drops spaces: the arguments returned, put
    together in order, are the characters of the input other than spaces. *)
Theorem splitArgs_keeps_all_other_characters (Args : string) :
  String.concat EmptyString (splitArgs Args) = removeSpaces Args.
Proof.
  unfold splitArgs.
  pose proof (splitArgs_loop_chars Args EmptyString []) as H.
  destruct (splitArgs_loop Args EmptyString []) as [Current Result].
  simpl in H. destruct (emptyb Current) eqn:HE; simpl.
  - destruct Current; [|discriminate]. now rewrite string_app_nil_r in H.
  - rewrite concat_nosep_app. simpl. exact H.
Qed.

(** X3.  Arguments joined by single spaces are split into the same
    arguments again, provided each is non-empty and free of spaces. *)
Theorem splitArgs_of_joined_arguments (toks : list string) :
  Forall (fun t => isToken t = true) toks ->
  splitArgs (String.concat " " toks) = toks.
Proof.
  intros Hall. unfold splitArgs.
  exact (splitArgs_loop_join toks [] Hall).
Qed.

Lemma splitArgs_of_clang_arguments :
  Forall (fun t => isToken t = true) ["--target=avr"; "-std=c++20"; "-O2"]
  /\ splitArgs (String.concat " " ["--target=avr"; "-std=c++20"; "-O2"])
     = ["--target=avr"; "-std=c++20"; "-O2"].
Proof.
  assert (H : Forall (fun t => isToken t = true)
                     ["--target=avr"; "-std=c++20"; "-O2"]).
  { repeat constructor; vm_compute; reflexivity. }
  split; [exact H|].
  exact (splitArgs_of_joined_arguments _ H).
Defined.

(** ** writeEscaped, continued *)

Lemma string_length_app (a b : string) :
  String.length (a ++ b) = (String.length a + String.length b)%nat.
Proof. induction a as [|c a IH]; simpl; [reflexivity|now rewrite IH]. Qed.

Lemma writeEscaped_app_eq (S1 S2 : string) :
  writeEscaped (S1 ++ S2) = writeEscaped S1 ++ writeEscaped S2.
Proof.
  induction S1 as [|c S1 IH]; simpl; [reflexivity|].
  now rewrite IH, string_app_assoc.
Qed.

Lemma writeEscapedChar_printable c :
  allBytes (fun b => 32 <=? byteOf b) (writeEscapedChar c) = true.
Proof.
  destruct c as [[] [] [] [] [] [] [] []]; vm_compute; reflexivity.
Qed.

Lemma writeEscapedChar_length c :
  (1 <= String.length (writeEscapedChar c) <= 6)%nat.
Proof.
  destruct c as [[] [] [] [] [] [] [] []]; vm_compute; split;
    repeat constructor.
Qed.

Lemma writeEscapedChar_plain c :
  plainByte c = true -> writeEscapedChar c = String c EmptyString.
Proof.
  destruct c as [[] [] [] [] [] [] [] []]; intros H;
    try reflexivity; vm_compute in H; discriminate H.
Qed.

Lemma unescape_writeEscapedChar c rest :
  unescape (writeEscapedChar c ++ rest) = option_map (String c) (unescape rest).
Proof.
  destruct c as [[] [] [] [] [] [] [] []]; reflexivity.
Qed.

Lemma unescape_writeEscaped S : unescape (writeEscaped S) = Some S.
Proof.
  induction S as [|c S IH]; [reflexivity|].
  cbn [writeEscaped]. now rewrite unescape_writeEscapedChar, IH.
Qed.

(** X4.  The text [writeEscaped] writes holds no byte below 0x20: no control
    character reaches the output. *)
Theorem writeEscaped_writes_no_control_byte (S : string) :
  allBytes (fun b => 32 <=? byteOf b) (writeEscaped S) = true.
Proof.
  induction S as [|c S IH]; [reflexivity|].
  cbn [writeEscaped]. now rewrite allBytes_app, writeEscapedChar_printable, IH.
Qed.

(** X5.  [writeEscaped] loses nothing: two strings with the same escaped
    text are the same string. *)
Theorem writeEscaped_injective (S1 S2 : string) :
  writeEscaped S1 = writeEscaped S2 -> S1 = S2.
Proof.
  intros H.
  assert (E : Some S1 = Some S2).
  { rewrite <- (unescape_writeEscaped S1), <- (unescape_writeEscaped S2).
    now rewrite H. }
  now injection E.
Qed.

Lemma writeEscaped_injective_at_tab :
  writeEscaped (String "009"%char EmptyString)
  = writeEscaped (String "009"%char EmptyString)
  /\ String "009"%char EmptyString = String "009"%char EmptyString.
Proof.
  split; [reflexivity|].
  exact (writeEscaped_injective (String "009"%char EmptyString)
                                (String "009"%char EmptyString) eq_refl).
Defined.

(** X6.  Escaping a concatenation is concatenating the escaped parts,
    for any two strings; and a string of plain bytes (none below 0x20, no
    double quote, no backslash) is written unchanged. *)
Theorem writeEscaped_of_plain_text (S1 S2 : string) :
  writeEscaped (S1 ++ S2) = writeEscaped S1 ++ writeEscaped S2
  /\ (allBytes plainByte S2 = true -> writeEscaped S2 = S2).
Proof.
  split; [apply writeEscaped_app_eq|].
  intros H. induction S2 as [|c S2 IH]; [reflexivity|].
  simpl in H. apply andb_true_iff in H as [Hc H].
  cbn [writeEscaped]. rewrite (writeEscapedChar_plain c Hc), IH by exact H.
  reflexivity.
Qed.

Lemma writeEscaped_of_qualified_name :
  allBytes plainByte "ns::Outer<int>::Inner" = true
  /\ writeEscaped (DQ ++ "ns::Outer<int>::Inner")
     = writeEscaped DQ ++ writeEscaped "ns::Outer<int>::Inner"
  /\ writeEscaped "ns::Outer<int>::Inner" = "ns::Outer<int>::Inner".
Proof.
  assert (H : allBytes plainByte "ns::Outer<int>::Inner" = true)
    by (vm_compute; reflexivity).
  split; [exact H|].
  split.
  - exact (proj1 (writeEscaped_of_plain_text DQ "ns::Outer<int>::Inner")).
  - exact (proj2 (writeEscaped_of_plain_text DQ "ns::Outer<int>::Inner") H).
Defined.

(** X7.  The escaped text is at least as long as the string and at most six
    times as long. *)
Theorem writeEscaped_length_bounds (S : string) :
  (String.length S <= String.length (writeEscaped S) <= 6 * String.length S)%nat.
Proof.
  induction S as [|c S IH]; [simpl; lia|].
  cbn [writeEscaped]. rewrite string_length_app.
  pose proof (writeEscapedChar_length c). simpl String.length. lia.
Qed.

(** ** analyzeRecord, continued *)

Lemma analyzeRecord_root_shape sort Ctx RD :
  exists v subs,
    analyzeRecord sort Ctx RD
    = mkFieldInfo v Record_ EmptyString (getQualifiedNameAsString RD) 0
                  (getSize (getASTRecordLayout Ctx RD))
                  (getAlignment (getASTRecordLayout Ctx RD)) 0 subs.
Proof. rewrite analyzeRecord_eq. eexists. eexists. reflexivity. Qed.

Lemma wrap64_times_8 q : (wrap64 (q * 8)) mod 8 = 0.
Proof.
  unfold wrap64. change (2 ^ 64) with (2 ^ 61 * 8).
  rewrite Z.mul_mod_distr_r by lia. apply Z.mod_mul. lia.
Qed.

Section Shape.
Variable Q : FieldInfo -> Prop.
Hypothesis Q_root :
  forall v ty sz al subs,
    Q (mkFieldInfo v Record_ EmptyString ty 0 sz al 0 subs).
Hypothesis Q_base :
  forall v ty q sz al subs,
    Q (mkFieldInfo v NVBase EmptyString ty (wrap64 (q * 8)) sz al 0 subs).
Hypothesis Q_member :
  forall v n ty o sz al subs,
    Q (mkFieldInfo v Record_ n ty (wrap64 o) sz al 0 subs).
Hypothesis Q_leaf :
  forall v (bf : bool) n ty o sz al w,
    Q (mkFieldInfo v (if bf then BitField else Simple) n ty (wrap64 o) sz al
                   (if bf then wrap64 w else 0) []).
Hypothesis Q_vptr : forall Ctx, Q (makeVPtrInfo Ctx).
Variable sort : SortFn.
Hypothesis sort_ok : SortContract sort.

Lemma analyzeRecord_nodes_shape Ctx RD :
  Forall Q (nodes (analyzeRecord sort Ctx RD)).
Proof.
  induction RD as [RD IHb IHf] using CXXRecordDecl_induction.
  rewrite nodes_eq. constructor.
  - destruct (analyzeRecord_root_shape sort Ctx RD) as (v & subs & ->).
    apply Q_root.
  - apply Forall_flat_map. rewrite analyzeRecord_eq. simpl.
    apply Forall_app; split; [|apply Forall_app; split].
    + destruct (hasOwnVFPtr _); constructor; [|constructor].
      rewrite nodes_eq. simpl. constructor; [apply Q_vptr|constructor].
    + apply (Permutation_Forall (sorted_bases_perm sort sort_ok _)).
      unfold baseNodes. apply Forall_map, Forall_forall.
      intros B HB. apply filter_In in HB as [HB _].
      specialize (IHb B HB). rewrite nodes_eq in IHb.
      apply Forall_inv_tail in IHb.
      unfold baseNode. rewrite nodes_eq.
      destruct (analyzeRecord_root_shape sort Ctx (baseDecl B))
        as (v & subs & E).
      rewrite E in *. simpl in *. constructor; [apply Q_base|exact IHb].
    + generalize 0 as i.
      induction (fields RD) as [|Field fs IHfs]; intros i; simpl;
        constructor.
      * unfold fieldNode.
        destruct (getAsCXXRecordDecl (getType Field)) as [R|] eqn:HR.
        -- specialize (IHf Field R (or_introl eq_refl) HR).
           rewrite nodes_eq in IHf. apply Forall_inv_tail in IHf.
           rewrite nodes_eq.
           destruct (analyzeRecord_root_shape sort Ctx R) as (v & subs & E).
           rewrite E in *. simpl in *.
           constructor; [apply Q_member|exact IHf].
        -- rewrite nodes_eq. simpl. constructor; [|constructor].
           apply (Q_leaf _ (isBitField Field)).
      * apply IHfs. intros F R HF. apply IHf. now right.
Qed.
End Shape.

Lemma analyzeRecord_NodeShape sort (sort_ok : SortContract sort) Ctx RD :
  Forall NodeShape (nodes (analyzeRecord sort Ctx RD)).
Proof.
  apply analyzeRecord_nodes_shape; trivial.
  - intros. split; simpl; [reflexivity|lia|discriminate].
  - intros. split; simpl; [reflexivity|lia|].
    intros _. split; [reflexivity|apply wrap64_times_8].
  - intros. split; simpl; [reflexivity|lia|discriminate].
  - intros v bf. intros. split; simpl.
    + destruct bf; [intros H; now contradiction H|reflexivity].
    + destruct bf; [apply wrap64_range|lia].
    + destruct bf; discriminate.
  - intros. split; simpl; [reflexivity|lia|discriminate].
Qed.

(** X8.  The root of an analysed record is of kind Record, unnamed, at
    offset 0, with bit width 0; its type is the qualified name of the
    record and its size and alignment are those of the record layout.  The
    two loops leave these members alone. *)
Theorem analyzeRecord_root_members
        (sort : SortFn) (Ctx : ASTContext) (RD : CXXRecordDecl) :
  fieldType (analyzeRecord sort Ctx RD) = Record_
  /\ name (analyzeRecord sort Ctx RD) = EmptyString
  /\ type (analyzeRecord sort Ctx RD) = getQualifiedNameAsString RD
  /\ offset (analyzeRecord sort Ctx RD) = 0
  /\ size (analyzeRecord sort Ctx RD) = getSize (getASTRecordLayout Ctx RD)
  /\ align (analyzeRecord sort Ctx RD)
     = getAlignment (getASTRecordLayout Ctx RD)
  /\ bitWidth (analyzeRecord sort Ctx RD) = 0.
Proof.
  destruct (analyzeRecord_root_shape sort Ctx RD) as (v & subs & ->).
  repeat split.
Qed.

(** X9.  An analysed record has one child for its own vptr, if it has one,
    one for each non-virtual base and one for each field; virtual bases
    have no child. *)
Theorem analyzeRecord_number_of_children
        (sort : SortFn) (sort_ok : SortContract sort)
        (Ctx : ASTContext) (RD : CXXRecordDecl) :
  List.length (subFields (analyzeRecord sort Ctx RD))
  = ((if hasOwnVFPtr (getASTRecordLayout Ctx RD) then 1 else 0)
     + List.length (filter (fun B => negb (isVirtual B)) (bases RD))
     + List.length (fields RD))%nat.
Proof.
  rewrite children_eq, !length_app.
  rewrite <- (Permutation_length (sorted_bases_perm sort sort_ok _)).
  rewrite baseNodes_length.
  assert (Hf : forall k fs,
             List.length (fieldNodes (analyzeRecord sort Ctx) Ctx
                            (getASTRecordLayout Ctx RD) k fs)
             = List.length fs).
  { intros k fs. revert k. induction fs as [|F fs IH]; intros k; simpl;
      [reflexivity|now rewrite IH]. }
  rewrite Hf. destruct (hasOwnVFPtr _); simpl; lia.
Qed.

Lemma number_of_children_of_P :
  SortContract insertion_sort_fn
  /\ List.length (subFields (analyzeRecord insertion_sort_fn ctx64 declP))
     = ((if hasOwnVFPtr (getASTRecordLayout ctx64 declP) then 1 else 0)
        + List.length (filter (fun B => negb (isVirtual B)) (bases declP))
        + List.length (fields declP))%nat.
Proof.
  split; [exact insertion_sort_contract|].
  exact (analyzeRecord_number_of_children
           insertion_sort_fn insertion_sort_contract ctx64 declP).
Defined.

(** X10.  In an analysed tree only nodes of kind BitField carry a bit
    width: every other node has bit width 0, and every bit width is a
    64-bit number. *)
Theorem bitWidth_is_zero_unless_BitField
        (sort : SortFn) (sort_ok : SortContract sort)
        (Ctx : ASTContext) (RD : CXXRecordDecl) (n : FieldInfo) :
  In n (nodes (analyzeRecord sort Ctx RD)) ->
  (fieldType n <> BitField -> bitWidth n = 0)
  /\ 0 <= bitWidth n < 2 ^ 64.
Proof.
  intros Hn.
  pose proof (analyzeRecord_NodeShape sort sort_ok Ctx RD) as H.
  rewrite Forall_forall in H. specialize (H n Hn).
  split; [apply (shape_bitWidth _ H)|apply (shape_bitWidth_range _ H)].
Qed.

Lemma bitWidth_of_field_x :
  SortContract insertion_sort_fn
  /\ In (mkFieldInfo true Simple "x" "int" 0 4 4 0 [])
        (nodes (analyzeRecord insertion_sort_fn ctx64 declB))
  /\ ((fieldType (mkFieldInfo true Simple "x" "int" 0 4 4 0 []) <> BitField ->
       bitWidth (mkFieldInfo true Simple "x" "int" 0 4 4 0 []) = 0)
      /\ 0 <= bitWidth (mkFieldInfo true Simple "x" "int" 0 4 4 0 []) < 2 ^ 64).
Proof.
  assert (Hin : In (mkFieldInfo true Simple "x" "int" 0 4 4 0 [])
                   (nodes (analyzeRecord insertion_sort_fn ctx64 declB))).
  { vm_compute. right. right. left. reflexivity. }
  split; [exact insertion_sort_contract|].
  split; [exact Hin|].
  exact (bitWidth_is_zero_unless_BitField
           insertion_sort_fn insertion_sort_contract ctx64 declB _ Hin).
Defined.

(** X11.  Every node of kind NVBase in an analysed tree is unnamed and its
    bit offset is a multiple of 8, so that the byte offset written for it
    loses nothing. *)
Theorem base_offset_is_whole_bytes
        (sort : SortFn) (sort_ok : SortContract sort)
        (Ctx : ASTContext) (RD : CXXRecordDecl) (n : FieldInfo) :
  In n (nodes (analyzeRecord sort Ctx RD)) ->
  fieldType n = NVBase ->
  name n = EmptyString
  /\ (offset n) mod 8 = 0
  /\ 8 * Z.shiftr (offset n) 3 = offset n.
Proof.
  intros Hn Hk.
  pose proof (analyzeRecord_NodeShape sort sort_ok Ctx RD) as H.
  rewrite Forall_forall in H. specialize (H n Hn).
  destruct (shape_base _ H Hk) as [Hname Hmod].
  split; [exact Hname|]. split; [exact Hmod|].
  rewrite Z.shiftr_div_pow2 by lia. change (2 ^ 3) with 8.
  pose proof (Z.div_mod (offset n) 8). lia.
Qed.

Lemma base_offset_of_A2_in_P :
  SortContract insertion_sort_fn
  /\ In (baseNode (analyzeRecord insertion_sort_fn ctx64)
                  (getASTRecordLayout ctx64 declP)
                  (nvBase declA2))
        (nodes (analyzeRecord insertion_sort_fn ctx64 declP))
  /\ fieldType (baseNode (analyzeRecord insertion_sort_fn ctx64)
                         (getASTRecordLayout ctx64 declP)
                         (nvBase declA2)) = NVBase
  /\ (name (baseNode (analyzeRecord insertion_sort_fn ctx64)
                     (getASTRecordLayout ctx64 declP)
                     (nvBase declA2)) = EmptyString
      /\ (offset (baseNode (analyzeRecord insertion_sort_fn ctx64)
                           (getASTRecordLayout ctx64 declP)
                           (nvBase declA2))) mod 8 = 0
      /\ 8 * Z.shiftr (offset (baseNode (analyzeRecord insertion_sort_fn ctx64)
                                        (getASTRecordLayout ctx64 declP)
                                        (nvBase declA2))) 3
         = offset (baseNode (analyzeRecord insertion_sort_fn ctx64)
                            (getASTRecordLayout ctx64 declP)
                            (nvBase declA2))).
Proof.
  assert (Hin : In (baseNode (analyzeRecord insertion_sort_fn ctx64)
                             (getASTRecordLayout ctx64 declP)
                             (nvBase declA2))
                   (nodes (analyzeRecord insertion_sort_fn ctx64 declP))).
  { vm_compute. right. right. right. left. reflexivity. }
  assert (Hk : fieldType (baseNode (analyzeRecord insertion_sort_fn ctx64)
                                   (getASTRecordLayout ctx64 declP)
                                   (nvBase declA2)) = NVBase)
    by (vm_compute; reflexivity).
  split; [exact insertion_sort_contract|].
  split; [exact Hin|].
  split; [exact Hk|].
  exact (base_offset_is_whole_bytes
           insertion_sort_fn insertion_sort_contract ctx64 declP _ Hin Hk).
Defined.

(** X12.  No node of an analysed tree is of kind VBase, so the serializer
    never writes the kind name Unknown for one; and only nodes of kind Record
    or NVBase, the kinds whose children the serializer writes, have
    children. *)
Theorem kinds_of_analysed_nodes
        (sort : SortFn) (sort_ok : SortContract sort)
        (Ctx : ASTContext) (RD : CXXRecordDecl) (n : FieldInfo) :
  In n (nodes (analyzeRecord sort Ctx RD)) ->
  fieldType n <> VBase
  /\ fieldTypeToString (fieldType n) <> "Unknown"
  /\ (subFields n = []
      \/ fieldType n = Record_ \/ fieldType n = NVBase).
Proof.
  intros Hn.
  pose proof (analyzeRecord_invariant sort sort_ok Ctx RD) as H.
  rewrite Forall_forall in H. specialize (H n Hn).
  pose proof (inv_kind _ H) as Hk.
  split; [exact Hk|]. split.
  - destruct (fieldType n); try discriminate. now contradiction Hk.
  - destruct (subFields n) as [|c l] eqn:E; [now left|right].
    apply (inv_leaf _ H). rewrite E. discriminate.
Qed.

Lemma kinds_at_vptr_of_X :
  SortContract insertion_sort_fn
  /\ In (makeVPtrInfo ctx64)
        (nodes (analyzeRecord insertion_sort_fn ctx64 declX))
  /\ (fieldType (makeVPtrInfo ctx64) <> VBase
      /\ fieldTypeToString (fieldType (makeVPtrInfo ctx64)) <> "Unknown"
      /\ (subFields (makeVPtrInfo ctx64) = []
          \/ fieldType (makeVPtrInfo ctx64) = Record_
          \/ fieldType (makeVPtrInfo ctx64) = NVBase)).
Proof.
  assert (Hin : In (makeVPtrInfo ctx64)
                   (nodes (analyzeRecord insertion_sort_fn ctx64 declX))).
  { vm_compute. right. left. reflexivity. }
  split; [exact insertion_sort_contract|].
  split; [exact Hin|].
  exact (kinds_of_analysed_nodes
           insertion_sort_fn insertion_sort_contract ctx64 declX _ Hin).
Defined.

(** ** The serializer, continued *)

Lemma subFieldsLoop_ext D1 D2 l first :
  Forall (fun c => forall d1 d2, writeField c d1 = writeField c d2) l ->
  subFieldsLoop writeField D1 l first = subFieldsLoop writeField D2 l first.
Proof.
  intros H. revert first. induction H as [|c l Hc _ IH]; intros first;
    cbn [subFieldsLoop]; [reflexivity|].
  now rewrite (Hc (wrap32 (D1 + 4)) (wrap32 (D2 + 4))), IH.
Qed.

(** X13.  The text written for a node does not depend on the [Depth]
    argument, at any level of the tree. *)
Theorem writeField_ignores_Depth (F : FieldInfo) (Depth1 Depth2 : Z) :
  writeField F Depth1 = writeField F Depth2.
Proof.
  revert Depth1 Depth2.
  induction F as [F IH] using FieldInfo_induction. intros Depth1 Depth2.
  rewrite (writeField_eq F Depth1), (writeField_eq F Depth2).
  now rewrite (subFieldsLoop_ext Depth1 Depth2 (subFields F) true IH).
Qed.

Lemma writeField_not_placeholder F Depth : writeField F Depth <> "{}".
Proof. rewrite writeField_eq. cbn [append DQ]. discriminate. Qed.

(** X14.  [getLayoutForRecord] returns the placeholder text exactly for the
    identities without an entry, so the placeholder never stands for a
    stored tree; and the call leaves the session state unchanged, found or
    not. *)
Theorem getLayoutForRecord_placeholder_iff_unknown
        (id : Z) (Ctx : LayoutContext) :
  (fst (getLayoutForRecord id Ctx) = "{}"
   <-> StdMap.find id (records Ctx) = None)
  /\ snd (getLayoutForRecord id Ctx) = Ctx.
Proof.
  unfold getLayoutForRecord, dupJson.
  destruct (StdMap.find id (records Ctx)) as [Root|]; cbn [fst snd].
  - split; [|reflexivity]. split; [|discriminate].
    intros H. now apply writeField_not_placeholder in H.
  - repeat split.
Qed.

Lemma renderListing_empty_iff m : renderListing m = "[]" <-> m = [].
Proof.
  split; [|now intros ->].
  destruct m as [|R m]; [reflexivity|].
  unfold renderListing, renderEntry.
  destruct m; cbn [map String.concat append]; discriminate.
Qed.

(** X15.  The listing is the text of the empty array only when the store is
    empty. *)
Theorem getRecordList_empty_array_iff_empty_store (Ctx : LayoutContext) :
  fst (getRecordList Ctx) = "[]" <-> records Ctx = [].
Proof. rewrite getRecordList_spec. apply renderListing_empty_iff. Qed.

(** X16.  [getRecordList] changes nothing but the cached listing, which
    becomes the text returned; a second call returns the same text and
    leaves the state as the first call left it. *)
Theorem getRecordList_caches_its_text (Ctx : LayoutContext) :
  recordList (snd (getRecordList Ctx)) = fst (getRecordList Ctx)
  /\ args (snd (getRecordList Ctx)) = args Ctx
  /\ records (snd (getRecordList Ctx)) = records Ctx
  /\ getRecordList (snd (getRecordList Ctx))
     = (fst (getRecordList Ctx), snd (getRecordList Ctx)).
Proof.
  rewrite (getRecordList_spec (snd (getRecordList Ctx))).
  rewrite getRecordList_spec. repeat split.
Qed.

(** ** The visitor and analyzeSource *)

Lemma find_assign_same k v m : StdMap.find k (StdMap.assign k v m) = Some v.
Proof.
  induction m as [|[k' v'] m IH]; simpl.
  - now rewrite Z.eqb_refl.
  - destruct (k <? k') eqn:Hlt; [|destruct (k =? k') eqn:Heq]; simpl.
    + now rewrite Z.eqb_refl.
    + now rewrite Z.eqb_refl.
    + now rewrite Heq.
Qed.

Lemma find_assign_other k k2 v m :
  k2 <> k -> StdMap.find k2 (StdMap.assign k v m) = StdMap.find k2 m.
Proof.
  intros Hne. apply Z.eqb_neq in Hne.
  induction m as [|[k' v'] m IH]; simpl.
  - now rewrite Hne.
  - destruct (k <? k') eqn:Hlt; [|destruct (k =? k') eqn:Heq]; simpl.
    + now rewrite Hne.
    + apply Z.eqb_eq in Heq. subst k'. now rewrite Hne.
    + now rewrite IH.
Qed.

Lemma ordered_In_find m k v :
  StdMap.ordered m -> In (k, v) m -> StdMap.find k m = Some v.
Proof.
  unfold StdMap.ordered.
  induction m as [|[k' v'] m IH]; simpl; intros Ho Hin; [destruct Hin|].
  apply StronglySorted_inv in Ho as [Ho Hk'].
  destruct Hin as [E|Hin].
  - injection E as -> ->. now rewrite Z.eqb_refl.
  - assert (Hlt : k' < k).
    { rewrite Forall_forall in Hk'. apply Hk'.
      unfold StdMap.keys. now apply (in_map fst _ (k, v)). }
    destruct (k =? k') eqn:Heq; [apply Z.eqb_eq in Heq; lia|].
    now apply IH.
Qed.

Section Visitor.
Variable sort : SortFn.
Variable frontEnd : FrontEnd.

Lemma Visit_find Ctx RD LCtx id :
  StdMap.find id (records (VisitCXXRecordDecl sort Ctx RD LCtx))
  = match StdMap.find id (records LCtx) with
    | Some v => Some v
    | None => option_map (analyzeRecord sort Ctx) (firstComplete id [RD])
    end.
Proof.
  unfold VisitCXXRecordDecl. destruct RD as [RD|]; simpl.
  - destruct (isCompleteDefinition RD); simpl.
    + destruct (StdMap.find (getID RD) (records LCtx)) as [w|] eqn:Hw.
      * destruct (StdMap.find id (records LCtx)) eqn:Hid; [reflexivity|].
        destruct (getID RD =? id) eqn:E; [|reflexivity].
        apply Z.eqb_eq in E. congruence.
      * simpl. destruct (getID RD =? id) eqn:E.
        -- apply Z.eqb_eq in E. subst id.
           now rewrite find_assign_same, Hw.
        -- apply Z.eqb_neq in E.
           rewrite find_assign_other by congruence.
           now destruct (StdMap.find id (records LCtx)).
    + now destruct (StdMap.find id (records LCtx)).
  - now destruct (StdMap.find id (records LCtx)).
Qed.

Lemma HandleTranslationUnit_find TU LCtx id :
  StdMap.find id (records (HandleTranslationUnit sort TU LCtx))
  = match StdMap.find id (records LCtx) with
    | Some v => Some v
    | None => option_map (analyzeRecord sort (tuContext TU))
                         (firstComplete id (tuRecordDecls TU))
    end.
Proof.
  unfold HandleTranslationUnit. revert LCtx.
  induction (tuRecordDecls TU) as [|RD ds IH]; intros LCtx; simpl.
  - now destruct (StdMap.find id (records LCtx)).
  - rewrite IH, Visit_find.
    destruct (StdMap.find id (records LCtx)) as [v|]; [reflexivity|].
    simpl. destruct RD as [RD|]; [|reflexivity].
    now destruct (isCompleteDefinition RD && (getID RD =? id)).
Qed.

Lemma Visit_frame Ctx RD LCtx :
  args (VisitCXXRecordDecl sort Ctx RD LCtx) = args LCtx
  /\ recordList (VisitCXXRecordDecl sort Ctx RD LCtx) = recordList LCtx.
Proof.
  unfold VisitCXXRecordDecl. destruct RD as [RD|]; [|now split].
  destruct (negb (isCompleteDefinition RD)); [now split|].
  destruct (StdMap.find (getID RD) (records LCtx)); now split.
Qed.

Lemma HandleTranslationUnit_frame TU LCtx :
  args (HandleTranslationUnit sort TU LCtx) = args LCtx
  /\ recordList (HandleTranslationUnit sort TU LCtx) = recordList LCtx.
Proof.
  unfold HandleTranslationUnit. revert LCtx.
  induction (tuRecordDecls TU) as [|RD ds IH]; intros LCtx; simpl;
    [now split|].
  destruct (IH (VisitCXXRecordDecl sort (tuContext TU) RD LCtx)) as [-> ->].
  apply Visit_frame.
Qed.

Lemma call_args c Ctx :
  isSetArgs c = false -> args (snd (call sort frontEnd c Ctx)) = args Ctx.
Proof.
  intros Hc. destruct c as [| |source|id|newArgs]; simpl;
    try discriminate; trivial.
  - unfold analyzeSource. simpl.
    destruct (frontEnd source _) as [TU|]; [|reflexivity].
    now rewrite (proj1 (HandleTranslationUnit_frame TU _)).
  - unfold getLayoutForRecord.
    now destruct (StdMap.find id (records Ctx)).
Qed.

Lemma call_args_nonempty c Ctx :
  args Ctx <> EmptyString ->
  args (snd (call sort frontEnd c Ctx)) <> EmptyString.
Proof.
  intros H. destruct (isSetArgs c) eqn:Hc.
  - destruct c as [| |source|id|[s|]]; try discriminate Hc; simpl.
    + destruct s; simpl; discriminate.
    + discriminate.
  - now rewrite call_args.
Qed.
End Visitor.

(** X17.  Visiting a translation unit never replaces or removes an entry of
    the store: an identity present before keeps its tree, and an identity
    absent before receives the tree of the first complete declaration with
    that identity, later declarations with it being skipped; the argument
    string and the cached listing are not touched. *)
Theorem HandleTranslationUnit_first_declaration_wins
        (sort : SortFn) (TU : TranslationUnit) (LCtx : LayoutContext)
        (id : Z) :
  StdMap.find id (records (HandleTranslationUnit sort TU LCtx))
  = match StdMap.find id (records LCtx) with
    | Some v => Some v
    | None => option_map (analyzeRecord sort (tuContext TU))
                         (firstComplete id (tuRecordDecls TU))
    end
  /\ args (HandleTranslationUnit sort TU LCtx) = args LCtx
  /\ recordList (HandleTranslationUnit sort TU LCtx) = recordList LCtx.
Proof.
  split; [apply HandleTranslationUnit_find|].
  apply HandleTranslationUnit_frame.
Qed.

(** X18.  After [analyzeSource] the store holds nothing of what it held
    before: it depends only on what the front-end returns for the source and
    the split argument string.  Each identity maps to the tree of the first
    complete declaration with that identity; the store is empty when the
    front-end hands over no translation unit.  The argument string stays and
    the cached listing is cleared. *)
Theorem analyzeSource_store_is_fresh
        (sort : SortFn) (frontEnd : FrontEnd)
        (source : string) (Ctx : LayoutContext) (id : Z) :
  StdMap.find id (records (analyzeSource sort frontEnd source Ctx))
  = match frontEnd source (splitArgs (args Ctx)) with
    | Some TU => option_map (analyzeRecord sort (tuContext TU))
                            (firstComplete id (tuRecordDecls TU))
    | None => None
    end
  /\ args (analyzeSource sort frontEnd source Ctx) = args Ctx
  /\ recordList (analyzeSource sort frontEnd source Ctx) = EmptyString.
Proof.
  unfold analyzeSource. simpl.
  destruct (frontEnd source (splitArgs (args Ctx))) as [TU|]; simpl.
  - rewrite HandleTranslationUnit_find. simpl.
    split; [reflexivity|].
    destruct (HandleTranslationUnit_frame
                sort TU (mkLayoutContext (args Ctx) EmptyString StdMap.empty))
      as [-> ->].
    now split.
  - repeat split.
Qed.

(** X19.  Only [setArgs] changes the argument string. *)
Theorem args_changed_only_by_setArgs
        (sort : SortFn) (frontEnd : FrontEnd) (c : Call) (Ctx : LayoutContext) :
  isSetArgs c = false ->
  args (snd (call sort frontEnd c Ctx)) = args Ctx.
Proof. apply call_args. Qed.

Lemma args_after_analysis :
  isSetArgs (CallAnalyzeSource "struct A { int x; char y; };") = false
  /\ args (snd (call insertion_sort_fn frontEnd
                     (CallAnalyzeSource "struct A { int x; char y; };")
                     initialContext))
     = args initialContext.
Proof.
  split; [reflexivity|].
  exact (args_changed_only_by_setArgs
           insertion_sort_fn frontEnd
           (CallAnalyzeSource "struct A { int x; char y; };")
           initialContext eq_refl).
Defined.

(** X20.  [setArgs] with a null or an empty string restores the default
    argument string, with any other string it stores that string, and it
    touches neither the store nor the cached listing; the default is not
    empty, so in every state a host can reach the argument string is not
    empty. *)
Theorem reachable_args_not_empty
        (sort : SortFn) (frontEnd : FrontEnd) (Ctx : LayoutContext) :
  args (setArgs None Ctx) = DEFAULT_ARGS
  /\ args (setArgs (Some EmptyString) Ctx) = DEFAULT_ARGS
  /\ (forall s, s <> EmptyString -> args (setArgs (Some s) Ctx) = s)
  /\ (forall newArgs,
         records (setArgs newArgs Ctx) = records Ctx
         /\ recordList (setArgs newArgs Ctx) = recordList Ctx)
  /\ DEFAULT_ARGS <> EmptyString
  /\ (Reachable sort frontEnd Ctx -> args Ctx <> EmptyString).
Proof.
  split; [reflexivity|]. split; [reflexivity|].
  split.
  { intros s Hs. destruct s; [now contradiction Hs|reflexivity]. }
  split.
  { intros [[|c s]|]; now split. }
  split; [discriminate|].
  intros [cs ->]. unfold run.
  assert (H : args initialContext <> EmptyString) by discriminate.
  revert H. generalize initialContext.
  induction cs as [|c cs IH]; intros C H; simpl; [exact H|].
  apply IH. now apply call_args_nonempty.
Qed.

Lemma args_after_setArgs_empty :
  Reachable insertion_sort_fn frontEnd
            (run insertion_sort_fn frontEnd
                 [CallSetArgs (Some "-m32"); CallSetArgs (Some EmptyString)]
                 initialContext)
  /\ args (run insertion_sort_fn frontEnd
               [CallSetArgs (Some "-m32"); CallSetArgs (Some EmptyString)]
               initialContext)
     <> EmptyString
  /\ args (setArgs None
                   (run insertion_sort_fn frontEnd
                        [CallSetArgs (Some "-m32");
                         CallSetArgs (Some EmptyString)]
                        initialContext))
     = DEFAULT_ARGS.
Proof.
  assert (H : Reachable insertion_sort_fn frontEnd
                (run insertion_sort_fn frontEnd
                     [CallSetArgs (Some "-m32"); CallSetArgs (Some EmptyString)]
                     initialContext)).
  { eexists. reflexivity. }
  split; [exact H|].
  split.
  - exact (proj2 (proj2 (proj2 (proj2 (proj2
             (reachable_args_not_empty insertion_sort_fn frontEnd _))))) H).
  - exact (proj1 (reachable_args_not_empty insertion_sort_fn frontEnd _)).
Defined.

(** X21.  Every entry of the store of a reachable state is found under its
    identity: for each identity the listing shows, [getLayoutForRecord]
    returns the text of that entry's tree. *)
Theorem listed_identity_resolves
        (sort : SortFn) (frontEnd : FrontEnd) (Ctx : LayoutContext)
        (id : Z) (Root : FieldInfo) :
  Reachable sort frontEnd Ctx ->
  In (id, Root) (records Ctx) ->
  getLayoutForRecord id Ctx = (writeField Root 0, Ctx).
Proof.
  intros Hreach Hin.
  destruct (Reachable_invariant sort frontEnd Ctx Hreach) as [Hord _].
  unfold getLayoutForRecord, dupJson.
  now rewrite (ordered_In_find _ _ _ Hord Hin).
Qed.

Lemma listed_identity_of_C_resolves :
  Reachable insertion_sort_fn frontEnd analysed
  /\ In (3, rootC) (records analysed)
  /\ getLayoutForRecord 3 analysed = (writeField rootC 0, analysed).
Proof.
  assert (Hin : In (3, rootC) (records analysed)).
  { vm_compute. right. right. left. reflexivity. }
  split; [exact analysed_reachable|].
  split; [exact Hin|].
  exact (listed_identity_resolves insertion_sort_fn frontEnd analysed 3 rootC
                                  analysed_reachable Hin).
Defined.

Lemma query_frame sort frontEnd c Ctx :
  isQuery c = true ->
  records (snd (call sort frontEnd c Ctx)) = records Ctx
  /\ args (snd (call sort frontEnd c Ctx)) = args Ctx.
Proof.
  intros Hc. destruct c as [| |source|id|newArgs]; try discriminate; simpl.
  - now split.
  - unfold getLayoutForRecord.
    now destruct (StdMap.find id (records Ctx)).
Qed.

(** X22.  Calls of [getRecordList] and [getLayoutForRecord], in any number
    and order, change neither the store nor the argument string, so the
    texts both return afterwards are the texts they return before. *)
Theorem queries_do_not_disturb
        (sort : SortFn) (frontEnd : FrontEnd)
        (cs : list Call) (Ctx : LayoutContext) :
  forallb isQuery cs = true ->
  records (run sort frontEnd cs Ctx) = records Ctx
  /\ args (run sort frontEnd cs Ctx) = args Ctx
  /\ fst (getRecordList (run sort frontEnd cs Ctx)) = fst (getRecordList Ctx)
  /\ forall id,
      fst (getLayoutForRecord id (run sort frontEnd cs Ctx))
      = fst (getLayoutForRecord id Ctx).
Proof.
  intros Hcs.
  assert (H : records (run sort frontEnd cs Ctx) = records Ctx
              /\ args (run sort frontEnd cs Ctx) = args Ctx).
  { unfold run. revert Ctx. induction cs as [|c cs IH]; intros Ctx; simpl;
      [now split|].
    simpl in Hcs. apply andb_true_iff in Hcs as [Hc Hcs].
    destruct (IH Hcs (snd (call sort frontEnd c Ctx))) as [-> ->].
    now apply query_frame. }
  destruct H as [Hr Ha]. split; [exact Hr|]. split; [exact Ha|].
  split.
  - rewrite !getRecordList_spec. cbn [fst]. now rewrite Hr.
  - intros id. unfold getLayoutForRecord. rewrite Hr.
    now destruct (StdMap.find id (records Ctx)).
Qed.

Lemma queries_on_analysed :
  forallb isQuery [CallGetRecordList; CallGetLayoutForRecord 2;
                   CallGetLayoutForRecord 42; CallGetRecordList] = true
  /\ (records (run insertion_sort_fn frontEnd
                   [CallGetRecordList; CallGetLayoutForRecord 2;
                    CallGetLayoutForRecord 42; CallGetRecordList] analysed)
      = records analysed
      /\ args (run insertion_sort_fn frontEnd
                   [CallGetRecordList; CallGetLayoutForRecord 2;
                    CallGetLayoutForRecord 42; CallGetRecordList] analysed)
         = args analysed
      /\ fst (getRecordList
                (run insertion_sort_fn frontEnd
                     [CallGetRecordList; CallGetLayoutForRecord 2;
                      CallGetLayoutForRecord 42; CallGetRecordList] analysed))
         = fst (getRecordList analysed)
      /\ forall id,
          fst (getLayoutForRecord id
                 (run insertion_sort_fn frontEnd
                      [CallGetRecordList; CallGetLayoutForRecord 2;
                       CallGetLayoutForRecord 42; CallGetRecordList] analysed))
          = fst (getLayoutForRecord id analysed)).
Proof.
  split; [reflexivity|].
  exact (queries_do_not_disturb
           insertion_sort_fn frontEnd
           [CallGetRecordList; CallGetLayoutForRecord 2;
            CallGetLayoutForRecord 42; CallGetRecordList] analysed eq_refl).
Defined.

(** X23.  [analyzeSource] starts every pass from nothing: the state it
    leaves is the same for any two states with the same argument string,
    whatever their stores and cached listings hold. *)
Theorem analyzeSource_depends_on_args_only
        (sort : SortFn) (frontEnd : FrontEnd)
        (source : string) (Ctx1 Ctx2 : LayoutContext) :
  args Ctx1 = args Ctx2 ->
  analyzeSource sort frontEnd source Ctx1
  = analyzeSource sort frontEnd source Ctx2.
Proof.
  intros H. unfold analyzeSource. simpl. now rewrite H.
Qed.

Lemma analyzeSource_again :
  args (analyzeSource insertion_sort_fn frontEnd "struct B : A {};" analysed)
  = args analysed
  /\ analyzeSource insertion_sort_fn frontEnd "struct B : A {};"
       (analyzeSource insertion_sort_fn frontEnd "struct B : A {};" analysed)
     = analyzeSource insertion_sort_fn frontEnd "struct B : A {};" analysed.
Proof.
  assert (H : args (analyzeSource insertion_sort_fn frontEnd
                                  "struct B : A {};" analysed)
              = args analysed)
    by (vm_compute; reflexivity).
  split; [exact H|].
  exact (analyzeSource_depends_on_args_only
           insertion_sort_fn frontEnd "struct B : A {};"
           (analyzeSource insertion_sort_fn frontEnd "struct B : A {};"
                          analysed)
           analysed H).
Defined.

Example member_of_class_type_takes_flag_of_its_class :
  fieldIsInvalidDecl (nth 0 (fields declM) (plainField "k" "int")) = true
  /\ map (fun n => (name n, isValid n))
         (subFields (analyzeRecord insertion_sort_fn ctxMN declM))
     = [("a", true); ("k", true)]
  /\ isValid (analyzeRecord insertion_sort_fn ctxMN declM) = true
  /\ map (fun n => (name n, isValid n))
         (subFields (analyzeRecord insertion_sort_fn ctxMN declN))
     = [("a", true); ("k", false)]
  /\ isValid (analyzeRecord insertion_sort_fn ctxMN declN) = false.
Proof. repeat split; vm_compute; reflexivity. Qed.
